(** * The SymCC runtime, QSYM backend ([runtime/qsym_backend/Runtime.cpp])

    A shallow embedding of the runtime's global state and entry points, and
    the properties of the expression registry, the garbage collector, the
    deferred address-constraint queue, the feasibility query and the
    test-case handler.

    Conventions of the embedding.
    - Raw pointers ([SymExpr], [DependencySet*], [TestCaseHandler]) are
      addresses in [N]; [nullptr] is address 0.
    - Expression nodes are immutable once built, so what a node holds (its
      width, its dependency set, its Z3 term, its rendering) is a function of
      its address, supplied by the environment below. Freeing is not
      modelled: a pointer keeps denoting what it denoted, also after the
      collector has dropped the registry's handle.
    - [qsym::DependencySet] is [std::set<size_t>]: a [gset N].  On two such
      sets [std::includes(a.begin(), a.end(), b.begin(), b.end())] decides
      whether [b] is a subset of [a].
    - [std::map::at] throws [std::out_of_range], the solver may raise a fault,
      [exit] ends the process: entry points live in a state monad whose
      outcome is either a returned value or an abort, and the state reached
      at the abort is kept.  A null pointer dereferenced and a store past the
      end of a vector are undefined behaviour; they are recorded as aborts
      too.
    - The QSYM expression builder and solver are outside this file: the
      builder is an abstract state machine answering construction requests,
      the solver is modelled by what this file does to it (its assertion
      stack, the path constraints submitted, the input bytes pushed). *)

From stdpp Require Import gmap list sets strings.

Local Open Scope N_scope.

(** ** Pointers and plain data *)

Abbreviation SymExpr := N (only parsing).
Abbreviation DepPtr := N (only parsing).
Abbreviation TestCaseHandler := N (only parsing).
Abbreviation DependencySet := (gset N) (only parsing).

Definition nullptr : N := 0.

(** [qsym::ExprRef] is [std::shared_ptr<Expr>]; [get] is the pointer held. *)
Record ExprRef := mkExprRef { get : SymExpr }.

#[global] Instance ExprRef_eq_dec : EqDecision ExprRef.
Proof. solve_decision. Defined.

(** [z3::expr], identified by its AST handle. *)
Record Z3Expr := mkZ3Expr { z3_ast : N }.

#[global] Instance Z3Expr_eq_dec : EqDecision Z3Expr.
Proof. solve_decision. Defined.

(** [std::includes] on the ranges of two ordered sets. *)
Definition includes (a b : DependencySet) : bool := bool_decide (b ⊆ a).

(** ** The expression builder interface *)

(** QSYM operator kinds named by the [create##qsymName] calls. *)
Inductive Kind :=
| Add | Sub | Mul | UDiv | SDiv | URem | SRem
| Shl | LShr | AShr
| Slt | Sle | Sgt | Sge | Ult | Ule | Ugt | Uge | Equal | Distinct
| LAnd | And | LOr | Or | Xor.

(** A request to [g_expr_builder]. *)
Inductive BuilderCall :=
| createConstant (value : N) (bits : N)
| createConstantAP (numBits : N) (value : N) (bits : N)
| createTrue
| createFalse
| createBool (value : bool)
| createBinary (k : Kind) (l r : ExprRef)
| createNeg (e : ExprRef)
| createNot (e : ExprRef)
| createIte (c a b : ExprRef)
| createSExt (e : ExprRef) (bits : N)
| createZExt (e : ExprRef) (bits : N)
| createTrunc (e : ExprRef) (bits : N)
| createRead (offset : N)
| createConcat (a b : ExprRef)
| createExtract (e : ExprRef) (index : N) (bits : N)
| boolToBit (e : ExprRef) (bits : N).

(** ** The solver *)

Inductive check_result := sat | unsat | unknown.

#[global] Instance check_result_eq_dec : EqDecision check_result.
Proof. solve_decision. Defined.

(** What a call of [check] does: return a result, or raise a fault. *)
Inductive check_outcome := returns (r : check_result) | faults.

(** One [addJcc] call: the condition, the direction taken, the site, and the
    flag telling sanitizer constraints from ordinary branches. *)
Record Jcc := mkJcc {
  jcc_expr : ExprRef;
  jcc_taken : bool;
  jcc_site : N;
  jcc_sanitizer : bool
}.

(** One [saveValues] call: either the registered handler received the
    concrete values, or QSYM's default wrote them out under a suffix. *)
Inductive Saved :=
| handled (handler : TestCaseHandler) (values : list N)
| written (suffix : string).

(** [permanent] holds the assertions made outside every scope, [scopes] the
    open scopes, innermost first. *)
Record Solver := mkSolver {
  inputs_ : list N;
  permanent : list Z3Expr;
  scopes : list (list Z3Expr);
  path_constraints : list Jcc;
  saved : list Saved
}.

Definition new_solver : Solver := mkSolver [] [] [] [] [].

Definition asserted (sv : Solver) : list Z3Expr :=
  permanent sv ++ concat (reverse (scopes sv)).

Definition with_inputs (sv : Solver) (l : list N) : Solver :=
  mkSolver l (permanent sv) (scopes sv) (path_constraints sv) (saved sv).
Definition with_permanent (sv : Solver) (l : list Z3Expr) : Solver :=
  mkSolver (inputs_ sv) l (scopes sv) (path_constraints sv) (saved sv).
Definition with_scopes (sv : Solver) (l : list (list Z3Expr)) : Solver :=
  mkSolver (inputs_ sv) (permanent sv) l (path_constraints sv) (saved sv).
Definition with_path_constraints (sv : Solver) (l : list Jcc) : Solver :=
  mkSolver (inputs_ sv) (permanent sv) (scopes sv) l (saved sv).
Definition with_saved (sv : Solver) (l : list Saved) : Solver :=
  mkSolver (inputs_ sv) (permanent sv) (scopes sv) (path_constraints sv) l.

(** ** The call-stack manager *)

Inductive Visit := visitCall (site : N) | visitRet (site : N) | visitBasicBlock (site : N).

(** ** Configuration ([g_config]) *)

Record Config := mkConfig {
  input_is_NoInput : bool;
  outputDir_is_directory : bool;
  pruning : bool;
  garbageCollectionThreshold : N
}.

(** ** Outcomes *)

Inductive Abort :=
| out_of_range          (* std::map::at on a missing key *)
| out_of_bounds         (* a store past the end of a std::vector *)
| null_dereference      (* a null pointer was dereferenced *)
| solver_fault          (* the solver raised *)
| process_exit (status : Z).

Inductive Outcome (A : Type) :=
| Ret (a : A)
| Raise (e : Abort).
Arguments Ret {A} a.
Arguments Raise {A} e.

Abbreviation QueueEntry := (DepPtr * (SymExpr * N))%type (only parsing).

(** ** The environment of the runtime

    The collaborators this file calls and the immutable content of the
    expression heap.
    - [build]: the expression builder answering a request in its state [B];
      the two [_create] fields are the builders [_sym_initialize] chooses from.
    - [bits_of], [getDependencies], [toString]: [expr->bits()],
      [expr->getDependencies()], [expr->toString()]; [deref] is the set a
      [DependencySet*] points to; [simplified_toZ3Expr] is the term
      [expr->toZ3Expr()] yields once [expr->simplify()] has run.
    - [z3_check]: [check] on the assertions currently in force.
    - [getConcreteValues]: the solver's concrete values.
    - [g_config], and [sizeof_uintptr_t], the target's [sizeof(uintptr_t)]
      in bytes.
    - [rehash]: the order in which [std::unordered_map] iterates after an
      insertion is up to the hash table; [rehash] arranges the new element
      (given first) and the old ones. *)
Class Environment (B : Type) := mkEnvironment {
  build : BuilderCall → B → ExprRef * B;
  PruneExprBuilder_create : B;
  SymbolicExprBuilder_create : B;
  bits_of : SymExpr → N;
  getDependencies : SymExpr → DepPtr;
  deref : DepPtr → DependencySet;
  toString : SymExpr → string;
  simplified_toZ3Expr : SymExpr → Z3Expr;
  z3_check : list Z3Expr → check_outcome;
  getConcreteValues : Solver → list N;
  g_config : Config;
  sizeof_uintptr_t : N;
  rehash : list QueueEntry → list QueueEntry
}.

(** A hash table loses and invents nothing. *)
Class RehashKeeps {B : Type} (env : Environment B) : Prop :=
  rehash_perm : ∀ q, rehash q ≡ₚ q.

Section Runtime.

Context {B : Type} {env : Environment B}.

(** ** Global state *)

Record Runtime := mkRuntime {
  g_initialized : bool;
  allocatedExpressions : gmap SymExpr ExprRef;
  g_delay_constraint_queue : list QueueEntry;
  g_exact_dependencies : DependencySet;
  g_test_case_handler : TestCaseHandler;
  g_expr_builder : option B;
  g_solver : option Solver;
  g_call_stack_manager : list Visit
}.

(** The globals as the program starts: nothing registered, nothing queued,
    no handler, builder and solver pointers not yet set. *)
Definition initial_runtime : Runtime :=
  mkRuntime false ∅ [] ∅ nullptr None None [].

Definition with_initialized (s : Runtime) (b : bool) : Runtime :=
  mkRuntime b (allocatedExpressions s) (g_delay_constraint_queue s)
    (g_exact_dependencies s) (g_test_case_handler s) (g_expr_builder s)
    (g_solver s) (g_call_stack_manager s).

Definition with_allocatedExpressions (s : Runtime) (m : gmap SymExpr ExprRef) : Runtime :=
  mkRuntime (g_initialized s) m (g_delay_constraint_queue s)
    (g_exact_dependencies s) (g_test_case_handler s) (g_expr_builder s)
    (g_solver s) (g_call_stack_manager s).

Definition with_queue (s : Runtime) (q : list QueueEntry) : Runtime :=
  mkRuntime (g_initialized s) (allocatedExpressions s) q
    (g_exact_dependencies s) (g_test_case_handler s) (g_expr_builder s)
    (g_solver s) (g_call_stack_manager s).

Definition with_exact (s : Runtime) (d : DependencySet) : Runtime :=
  mkRuntime (g_initialized s) (allocatedExpressions s) (g_delay_constraint_queue s)
    d (g_test_case_handler s) (g_expr_builder s)
    (g_solver s) (g_call_stack_manager s).

Definition with_handler (s : Runtime) (h : TestCaseHandler) : Runtime :=
  mkRuntime (g_initialized s) (allocatedExpressions s) (g_delay_constraint_queue s)
    (g_exact_dependencies s) h (g_expr_builder s)
    (g_solver s) (g_call_stack_manager s).

Definition with_builder (s : Runtime) (b : option B) : Runtime :=
  mkRuntime (g_initialized s) (allocatedExpressions s) (g_delay_constraint_queue s)
    (g_exact_dependencies s) (g_test_case_handler s) b
    (g_solver s) (g_call_stack_manager s).

Definition with_solver (s : Runtime) (sv : option Solver) : Runtime :=
  mkRuntime (g_initialized s) (allocatedExpressions s) (g_delay_constraint_queue s)
    (g_exact_dependencies s) (g_test_case_handler s) (g_expr_builder s)
    sv (g_call_stack_manager s).

Definition with_call_stack (s : Runtime) (l : list Visit) : Runtime :=
  mkRuntime (g_initialized s) (allocatedExpressions s) (g_delay_constraint_queue s)
    (g_exact_dependencies s) (g_test_case_handler s) (g_expr_builder s)
    (g_solver s) l.

(** ** The monad of entry points *)

Definition M (A : Type) : Type := Runtime → Outcome A * Runtime.

Definition ret {A} (a : A) : M A := λ s, (Ret a, s).
Definition raise {A} (e : Abort) : M A := λ s, (Raise e, s).
Definition bind {A C} (m : M A) (f : A → M C) : M C :=
  λ s, match m s with
       | (Ret a, s') => f a s'
       | (Raise e, s') => (Raise e, s')
       end.

#[global] Instance M_ret : MRet M := @ret.
#[global] Instance M_bind : MBind M := λ A C f m, bind m f.

Definition gets {A} (f : Runtime → A) : M A := λ s, (Ret (f s), s).
Definition modify (f : Runtime → Runtime) : M unit := λ s, (Ret tt, f s).

(** [allocatedExpressions.at(e)] *)
Definition at_ (e : SymExpr) : M ExprRef :=
  λ s, match allocatedExpressions s !! e with
       | Some r => (Ret r, s)
       | None => (Raise out_of_range, s)
       end.

(** [g_expr_builder->...]: a null builder pointer cannot be called. *)
Definition builder (c : BuilderCall) : M ExprRef :=
  λ s, match g_expr_builder s with
       | Some b => let '(r, b') := build c b in (Ret r, with_builder s (Some b'))
       | None => (Raise null_dereference, s)
       end.

(** [g_solver->...] *)
Definition solver {A} (f : Solver → Outcome A * Solver) : M A :=
  λ s, match g_solver s with
       | Some sv => let '(r, sv') := f sv in (r, with_solver s (Some sv'))
       | None => (Raise null_dereference, s)
       end.

(** ** The expression registry *)

Definition registerExpression (expr : ExprRef) : M SymExpr :=
  let rawExpr := get expr in
  λ s, match allocatedExpressions s !! rawExpr with
       | None => (Ret rawExpr, with_allocatedExpressions s (<[rawExpr := expr]> (allocatedExpressions s)))
       | Some _ => (Ret rawExpr, s)
       end.

(** ** The solver facade ([EnhancedQsymSolver]) *)

(** [offset] is a [size_t], as wide as [uintptr_t]: [offset + 1] wraps to 0
    at the largest offset, the buffer is then resized to nothing, and the
    store that follows falls outside it.  [operator[]] does not check its
    index; a store outside the buffer is undefined behaviour, recorded here
    as the abort [out_of_bounds].  Running out of memory in [resize] is not
    modelled. *)
Definition pushInputByte (offset value : N) (sv : Solver) : Outcome unit * Solver :=
  let inputs :=
    if decide (N.of_nat (length (inputs_ sv)) ≤ offset)
    then resize (N.to_nat ((offset + 1) `mod` 2 ^ (8 * sizeof_uintptr_t))) 0 (inputs_ sv)
    else inputs_ sv in
  if decide (offset < N.of_nat (length inputs))
  then (Ret tt, with_inputs sv (<[N.to_nat offset := value]> inputs))
  else (Raise out_of_bounds, with_inputs sv inputs).

Definition saveValues (suffix : string) : M unit :=
  handler ← gets g_test_case_handler;
  if decide (handler ≠ nullptr)
  then solver (λ sv, (Ret tt, with_saved sv (saved sv ++ [handled handler (getConcreteValues sv)])))
  else solver (λ sv, (Ret tt, with_saved sv (saved sv ++ [written suffix]))).

Definition addJcc (e : ExprRef) (taken : bool) (site_id : N) (is_sanitizer : bool) : M unit :=
  solver (λ sv, (Ret tt, with_path_constraints sv
                           (path_constraints sv ++ [mkJcc e taken site_id is_sanitizer]))).

Definition solver_push (sv : Solver) : Outcome unit * Solver :=
  (Ret tt, with_scopes sv ([] :: scopes sv)).

Definition solver_add (z : Z3Expr) (sv : Solver) : Outcome unit * Solver :=
  match scopes sv with
  | [] => (Ret tt, with_permanent sv (permanent sv ++ [z]))
  | top :: below => (Ret tt, with_scopes sv ((top ++ [z]) :: below))
  end.

Definition solver_check (sv : Solver) : Outcome check_result * Solver :=
  match z3_check (asserted sv) with
  | returns r => (Ret r, sv)
  | faults => (Raise solver_fault, sv)
  end.

Definition solver_pop (sv : Solver) : Outcome unit * Solver :=
  match scopes sv with
  | [] => (Raise solver_fault, sv)
  | _ :: below => (Ret tt, with_scopes sv below)
  end.

(** ** Lifecycle *)

Definition _sym_initialize : M unit :=
  λ s,
    if g_initialized s then (Ret tt, s)
    else
      let s := with_initialized s true in
      if input_is_NoInput g_config then (Ret tt, s)
      else if negb (outputDir_is_directory g_config)
      then (Raise (process_exit (-1)), s)
      else (Ret tt,
            with_builder (with_solver s (Some new_solver))
              (Some (if pruning g_config
                     then PruneExprBuilder_create
                     else SymbolicExprBuilder_create))).

(** ** Expression construction *)

Definition _sym_build_integer (value bits : N) : M SymExpr :=
  if decide (8 = sizeof_uintptr_t) then
    e ← builder (createConstant value bits); registerExpression e
  else
    let value32 := value `mod` 2 ^ (8 * sizeof_uintptr_t) in
    if decide (value32 = value) then
      e ← builder (createConstant value32 bits); registerExpression e
    else
      e ← builder (createConstantAP 64 value bits); registerExpression e.

Definition _sym_build_integer128 (high low : N) : M SymExpr :=
  e ← builder (createConstantAP 128 (low + high * 2 ^ 64) 128); registerExpression e.

Definition _sym_build_null_pointer : M SymExpr :=
  e ← builder (createConstant 0 (sizeof_uintptr_t * 8)); registerExpression e.

Definition _sym_build_true : M SymExpr :=
  e ← builder createTrue; registerExpression e.

Definition _sym_build_false : M SymExpr :=
  e ← builder createFalse; registerExpression e.

Definition _sym_build_bool (value : bool) : M SymExpr :=
  e ← builder (createBool value); registerExpression e.

(** The entry points generated by [DEF_BINARY_EXPR_BUILDER(name, qsymName)]. *)
Inductive BinaryBuilder :=
| _sym_build_add | _sym_build_sub | _sym_build_mul
| _sym_build_unsigned_div | _sym_build_signed_div
| _sym_build_unsigned_rem | _sym_build_signed_rem
| _sym_build_shift_left | _sym_build_logical_shift_right
| _sym_build_arithmetic_shift_right
| _sym_build_signed_less_than | _sym_build_signed_less_equal
| _sym_build_signed_greater_than | _sym_build_signed_greater_equal
| _sym_build_unsigned_less_than | _sym_build_unsigned_less_equal
| _sym_build_unsigned_greater_than | _sym_build_unsigned_greater_equal
| _sym_build_equal | _sym_build_not_equal
| _sym_build_bool_and | _sym_build_and | _sym_build_bool_or | _sym_build_or
| _sym_build_bool_xor | _sym_build_xor.

Definition qsymName (name : BinaryBuilder) : Kind :=
  match name with
  | _sym_build_add => Add | _sym_build_sub => Sub | _sym_build_mul => Mul
  | _sym_build_unsigned_div => UDiv | _sym_build_signed_div => SDiv
  | _sym_build_unsigned_rem => URem | _sym_build_signed_rem => SRem
  | _sym_build_shift_left => Shl | _sym_build_logical_shift_right => LShr
  | _sym_build_arithmetic_shift_right => AShr
  | _sym_build_signed_less_than => Slt | _sym_build_signed_less_equal => Sle
  | _sym_build_signed_greater_than => Sgt | _sym_build_signed_greater_equal => Sge
  | _sym_build_unsigned_less_than => Ult | _sym_build_unsigned_less_equal => Ule
  | _sym_build_unsigned_greater_than => Ugt | _sym_build_unsigned_greater_equal => Uge
  | _sym_build_equal => Equal | _sym_build_not_equal => Distinct
  | _sym_build_bool_and => LAnd | _sym_build_and => And
  | _sym_build_bool_or => LOr | _sym_build_or => Or
  | _sym_build_bool_xor => Distinct | _sym_build_xor => Xor
  end.

Definition DEF_BINARY_EXPR_BUILDER (name : BinaryBuilder) (a b : SymExpr) : M SymExpr :=
  ea ← at_ a;
  eb ← at_ b;
  e ← builder (createBinary (qsymName name) ea eb);
  registerExpression e.

Definition _sym_build_neg (expr : SymExpr) : M SymExpr :=
  ex ← at_ expr;
  e ← builder (createNeg ex);
  registerExpression e.

Definition _sym_build_not (expr : SymExpr) : M SymExpr :=
  ex ← at_ expr;
  e ← builder (createNot ex);
  registerExpression e.

Definition _sym_build_ite (cond a b : SymExpr) : M SymExpr :=
  ec ← at_ cond;
  ea ← at_ a;
  eb ← at_ b;
  e ← builder (createIte ec ea eb);
  registerExpression e.

(** The extensions ask for the width [bits + expr->bits()]; widths stay far
    below the range of the unsigned arithmetic, whose wrap-around is left
    out. *)
Definition _sym_build_sext (expr : SymExpr) (bits : N) : M SymExpr :=
  if decide (expr = nullptr) then mret nullptr
  else
    ex ← at_ expr;
    e ← builder (createSExt ex (bits + bits_of expr));
    registerExpression e.

Definition _sym_build_zext (expr : SymExpr) (bits : N) : M SymExpr :=
  if decide (expr = nullptr) then mret nullptr
  else
    ex ← at_ expr;
    e ← builder (createZExt ex (bits + bits_of expr));
    registerExpression e.

Definition _sym_build_trunc (expr : SymExpr) (bits : N) : M SymExpr :=
  if decide (expr = nullptr) then mret nullptr
  else
    ex ← at_ expr;
    e ← builder (createTrunc ex bits);
    registerExpression e.

Definition _sym_get_input_byte (offset value : N) : M SymExpr :=
  solver (pushInputByte offset value);;
  e ← builder (createRead offset);
  registerExpression e.

Definition _sym_concat_helper (a b : SymExpr) : M SymExpr :=
  ea ← at_ a;
  eb ← at_ b;
  e ← builder (createConcat ea eb);
  registerExpression e.

Definition _sym_extract_helper (expr : SymExpr) (first_bit last_bit : N) : M SymExpr :=
  ex ← at_ expr;
  e ← builder (createExtract ex last_bit
                (Z.to_N ((Z.of_N first_bit - Z.of_N last_bit + 1)
                           `mod` 2 ^ Z.of_N (8 * sizeof_uintptr_t))));
  registerExpression e.

Definition _sym_bits_helper (expr : SymExpr) : M N :=
  if decide (expr = nullptr) then raise null_dereference
  else mret (bits_of expr).

Definition _sym_build_bool_to_bit (expr : SymExpr) : M SymExpr :=
  if decide (expr = nullptr) then mret nullptr
  else
    ex ← at_ expr;
    e ← builder (boolToBit ex 1);
    registerExpression e.

(** Every floating-point construction is [UNSUPPORTED]. *)
Definition UNSUPPORTED : M SymExpr := mret nullptr.

(** ** Path constraints

    The sanitizer entry points exist only under [WITH_SANITIZER_RUNTIME],
    where [addJcc] takes the sanitizer flag; that is the build modelled. *)

Definition _sym_push_path_constraint (constraint : SymExpr) (taken : Z) (site_id : N) : M unit :=
  if decide (constraint = nullptr) then mret tt
  else
    e ← at_ constraint;
    addJcc e (bool_decide (taken ≠ 0%Z)) site_id false.

Definition _sym_asan_push_path_constraint (constraint : SymExpr) (taken : Z) (site_id : N) : M unit :=
  if decide (constraint = nullptr) then mret tt
  else
    e ← at_ constraint;
    addJcc e (bool_decide (taken ≠ 0%Z)) site_id true.

(** Prints the dependency set of a registered node. *)
Definition _sym_asan_test_dependency (constraint : SymExpr) : M unit :=
  _ ← at_ constraint; mret tt.

(** ** The deferred address-constraint queue *)

(** [g_delay_constraint_queue.insert({key, value})]: a key already present
    keeps its old value. *)
Definition queue_insert (key : DepPtr) (value : SymExpr * N)
    (q : list QueueEntry) : list QueueEntry :=
  if decide (key ∈ q.*1) then q else rehash ((key, value) :: q).

Definition _sym_asan_insert_symbolic_addr_node (value addr : SymExpr) (concrete_addr : N) : M unit :=
  node ← at_ value;
  let dep := getDependencies (get node) in
  exact ← gets g_exact_dependencies;
  if includes exact (deref dep) then mret tt
  else
    q ← gets g_delay_constraint_queue;
    if existsb (λ entry : QueueEntry, includes (deref entry.1) (deref dep)) q
    then mret tt
    else modify (λ s, with_queue s (queue_insert dep (addr, concrete_addr) q)).

(** The loop of [_sym_asan_constraint_verify]: [iter] is the position the
    iterator stands at, [rest] the entries from there on. An entry whose set
    the branch's set does not include is passed over ([continue]); the first
    one it includes is promoted and erased, and the loop ends ([break]). *)
Fixpoint verify_loop (br_dep : DependencySet) (iter : nat) (rest : list QueueEntry) : M unit :=
  match rest with
  | [] => mret tt
  | (key, (addr_sym, addr_con)) :: rest =>
      let dep := deref key in
      if negb (includes br_dep dep) then verify_loop br_dep (S iter) rest
      else
        c ← _sym_build_integer addr_con 64;
        eq ← DEF_BINARY_EXPR_BUILDER _sym_build_equal c addr_sym;
        _sym_push_path_constraint eq 1 0;;
        modify (λ s, with_exact s (g_exact_dependencies s ∪ dep));;
        modify (λ s, with_queue s (delete iter (g_delay_constraint_queue s)))
  end.

Definition _sym_asan_constraint_verify (expr : SymExpr) : M unit :=
  q ← gets g_delay_constraint_queue;
  if decide (q = []) then mret tt
  else
    node ← at_ expr;
    let br_dep := deref (getDependencies (get node)) in
    verify_loop br_dep 0 q.

Definition _sym_asan_is_symexpr_exact (expr : SymExpr) : M bool :=
  exact ← gets g_exact_dependencies;
  if decide (exact = ∅) then mret false
  else if decide (expr = nullptr) then raise null_dereference
  else mret (includes exact (deref (getDependencies expr))).

(** ** Debugging *)

Definition _sym_expr_to_string (expr : SymExpr) : M string :=
  if decide (expr = nullptr) then raise null_dereference
  else mret (String.substring 0 4095 (toString expr)).

Definition _sym_feasible (expr : SymExpr) : M bool :=
  if decide (expr = nullptr) then raise null_dereference
  else
    solver solver_push;;
    solver (solver_add (simplified_toZ3Expr expr));;
    r ← solver solver_check;
    solver solver_pop;;
    mret (bool_decide (r = sat)).

(** ** Garbage collection

    [reachableExpressions] is what [collectReachableExpressions()] returns
    on this call. *)
Definition _sym_collect_garbage (reachableExpressions : gset SymExpr) : M unit :=
  n ← gets (λ s, N.of_nat (size (allocatedExpressions s)));
  if decide (n < garbageCollectionThreshold g_config) then mret tt
  else
    modify (λ s, with_allocatedExpressions s
                   (filter (λ kv, kv.1 ∈ reachableExpressions) (allocatedExpressions s))).

(** ** Test-case handling *)

Definition symcc_set_test_case_handler (handler : TestCaseHandler) : M unit :=
  modify (λ s, with_handler s handler).

(** ** Call-stack tracing *)

Definition _sym_notify_call (site_id : N) : M unit :=
  modify (λ s, with_call_stack s (g_call_stack_manager s ++ [visitCall site_id])).

Definition _sym_notify_ret (site_id : N) : M unit :=
  modify (λ s, with_call_stack s (g_call_stack_manager s ++ [visitRet site_id])).

Definition _sym_notify_basic_block (site_id : N) : M unit :=
  modify (λ s, with_call_stack s (g_call_stack_manager s ++ [visitBasicBlock site_id])).

(** ** Entry points as calls

    One constructor per entry point; [collect_garbage] carries the reachable
    set the collaborator reports on that call, [save_values] is the solver
    calling back into [EnhancedQsymSolver::saveValues]. *)

Inductive Value :=
| VUnit
| VExpr (e : SymExpr)
| VBool (b : bool)
| VSize (n : N)
| VString (str : string).

Inductive Call :=
| initialize
| build_integer (value bits : N)
| build_integer128 (high low : N)
| build_null_pointer
| build_true
| build_false
| build_bool (value : bool)
| build_binary (name : BinaryBuilder) (a b : SymExpr)
| build_neg (expr : SymExpr)
| build_not (expr : SymExpr)
| build_ite (cond a b : SymExpr)
| build_sext (expr : SymExpr) (bits : N)
| build_zext (expr : SymExpr) (bits : N)
| build_trunc (expr : SymExpr) (bits : N)
| build_bool_to_bit (expr : SymExpr)
| build_unsupported
| get_input_byte (offset value : N)
| concat_helper (a b : SymExpr)
| extract_helper (expr : SymExpr) (first_bit last_bit : N)
| bits_helper (expr : SymExpr)
| push_path_constraint (constraint : SymExpr) (taken : Z) (site_id : N)
| asan_push_path_constraint (constraint : SymExpr) (taken : Z) (site_id : N)
| asan_test_dependency (constraint : SymExpr)
| asan_insert_symbolic_addr_node (value addr : SymExpr) (concrete_addr : N)
| asan_constraint_verify (expr : SymExpr)
| asan_is_symexpr_exact (expr : SymExpr)
| notify_call (site_id : N)
| notify_ret (site_id : N)
| notify_basic_block (site_id : N)
| expr_to_string (expr : SymExpr)
| feasible (expr : SymExpr)
| collect_garbage (reachableExpressions : gset SymExpr)
| set_test_case_handler (handler : TestCaseHandler)
| save_values (suffix : string).

Definition returning {A} (wrap : A → Value) (m : M A) : M Value :=
  a ← m; mret (wrap a).

Definition exec (c : Call) : M Value :=
  match c with
  | initialize => returning (λ _, VUnit) _sym_initialize
  | build_integer value bits => returning VExpr (_sym_build_integer value bits)
  | build_integer128 high low => returning VExpr (_sym_build_integer128 high low)
  | build_null_pointer => returning VExpr _sym_build_null_pointer
  | build_true => returning VExpr _sym_build_true
  | build_false => returning VExpr _sym_build_false
  | build_bool value => returning VExpr (_sym_build_bool value)
  | build_binary name a b => returning VExpr (DEF_BINARY_EXPR_BUILDER name a b)
  | build_neg expr => returning VExpr (_sym_build_neg expr)
  | build_not expr => returning VExpr (_sym_build_not expr)
  | build_ite cond a b => returning VExpr (_sym_build_ite cond a b)
  | build_sext expr bits => returning VExpr (_sym_build_sext expr bits)
  | build_zext expr bits => returning VExpr (_sym_build_zext expr bits)
  | build_trunc expr bits => returning VExpr (_sym_build_trunc expr bits)
  | build_bool_to_bit expr => returning VExpr (_sym_build_bool_to_bit expr)
  | build_unsupported => returning VExpr UNSUPPORTED
  | get_input_byte offset value => returning VExpr (_sym_get_input_byte offset value)
  | concat_helper a b => returning VExpr (_sym_concat_helper a b)
  | extract_helper expr first_bit last_bit =>
      returning VExpr (_sym_extract_helper expr first_bit last_bit)
  | bits_helper expr => returning VSize (_sym_bits_helper expr)
  | push_path_constraint constraint taken site_id =>
      returning (λ _, VUnit) (_sym_push_path_constraint constraint taken site_id)
  | asan_push_path_constraint constraint taken site_id =>
      returning (λ _, VUnit) (_sym_asan_push_path_constraint constraint taken site_id)
  | asan_test_dependency constraint =>
      returning (λ _, VUnit) (_sym_asan_test_dependency constraint)
  | asan_insert_symbolic_addr_node value addr concrete_addr =>
      returning (λ _, VUnit) (_sym_asan_insert_symbolic_addr_node value addr concrete_addr)
  | asan_constraint_verify expr =>
      returning (λ _, VUnit) (_sym_asan_constraint_verify expr)
  | asan_is_symexpr_exact expr => returning VBool (_sym_asan_is_symexpr_exact expr)
  | notify_call site_id => returning (λ _, VUnit) (_sym_notify_call site_id)
  | notify_ret site_id => returning (λ _, VUnit) (_sym_notify_ret site_id)
  | notify_basic_block site_id => returning (λ _, VUnit) (_sym_notify_basic_block site_id)
  | expr_to_string expr => returning VString (_sym_expr_to_string expr)
  | feasible expr => returning VBool (_sym_feasible expr)
  | collect_garbage reachableExpressions =>
      returning (λ _, VUnit) (_sym_collect_garbage reachableExpressions)
  | set_test_case_handler handler =>
      returning (λ _, VUnit) (symcc_set_test_case_handler handler)
  | save_values suffix => returning (λ _, VUnit) (saveValues suffix)
  end.

(** The state after a sequence of calls.  A call that aborts leaves the
    state it reached; what is proved of [run] holds whether or not the
    caller goes on after an abort. *)
Definition run (calls : list Call) (s : Runtime) : Runtime :=
  foldl (λ s c, (exec c s).2) s calls.

(** ** Vocabulary of the properties *)

(** [steps R m]: running [m], to its return or to its abort, takes every
    state to one related to it by [R]. *)
Definition steps {A} (R : relation Runtime) (m : M A) : Prop :=
  ∀ s, R s (m s).2.

(** [keeps f m]: running [m] does not change the part [f] of the state. *)
Definition same {X} (f : Runtime → X) : relation Runtime :=
  λ s s', f s' = f s.
Definition keeps {X A} (f : Runtime → X) (m : M A) : Prop :=
  steps (same f) m.

(** What a call may do to the registry: keep an entry, or file an answer of
    the builder under the pointer it holds (entries may also go). *)
Definition registry_step (s s' : Runtime) : Prop :=
  ∀ k r, allocatedExpressions s' !! k = Some r →
         allocatedExpressions s !! k = Some r
         ∨ (k = get r ∧ ∃ c b, r = (build c b).1).

(** The part of the state the deferred queue lives in. *)
Definition queue_state (s : Runtime) : list QueueEntry * DependencySet :=
  (g_delay_constraint_queue s, g_exact_dependencies s).

(** The three ways a call can leave the queue and the exact set: as they
    were; with one uncovered entry added; with one entry promoted. *)
Inductive queue_step (s s' : Runtime) : Prop :=
| queue_kept :
    queue_state s' = queue_state s → queue_step s s'
| queue_enqueued (key : DepPtr) (value : SymExpr * N) :
    deref key ⊈ g_exact_dependencies s →
    (∀ entry, entry ∈ g_delay_constraint_queue s → deref key ⊈ deref entry.1) →
    g_delay_constraint_queue s' = rehash ((key, value) :: g_delay_constraint_queue s) →
    g_exact_dependencies s' = g_exact_dependencies s →
    queue_step s s'
| queue_promoted (iter : nat) (entry : QueueEntry) :
    g_delay_constraint_queue s !! iter = Some entry →
    g_delay_constraint_queue s' = delete iter (g_delay_constraint_queue s) →
    g_exact_dependencies s' = g_exact_dependencies s ∪ deref entry.1 →
    queue_step s s'.

(** The request [_sym_build_integer] sends to the builder. *)
Definition integer_request (value bits : N) : BuilderCall :=
  if decide (8 = sizeof_uintptr_t) then createConstant value bits
  else if decide (value `mod` 2 ^ (8 * sizeof_uintptr_t) = value)
       then createConstant value bits
       else createConstantAP 64 value bits.

(** Every registry entry is filed under the pointer its handle holds. *)
Definition registry_wf (s : Runtime) : Prop :=
  ∀ k r, allocatedExpressions s !! k = Some r → get r = k.

(** The state once [expr] is registered. *)
Definition registered (expr : ExprRef) (s : Runtime) : Runtime :=
  (registerExpression expr s).2.

(** The dependency sets resident in the queue, in iteration order. *)
Definition resident_sets (s : Runtime) : list DependencySet :=
  (λ entry : QueueEntry, deref entry.1) <$> g_delay_constraint_queue s.

(** No two resident sets in a subset relation, none inside the exact set. *)
Definition no_subsumption (s : Runtime) : Prop :=
  (∀ i j d1 d2, i ≠ j →
     resident_sets s !! i = Some d1 → resident_sets s !! j = Some d2 → d1 ⊈ d2)
  ∧ (∀ d, d ∈ resident_sets s → d ⊈ g_exact_dependencies s).

(** No two resident sets equal, none empty. *)
Definition no_repeat (s : Runtime) : Prop :=
  NoDup (resident_sets s) ∧ (∀ d, d ∈ resident_sets s → d ≠ ∅).

(** The registry after a call still holds what it held. *)
Definition registry_grows (s s' : Runtime) : Prop :=
  ∀ k r, allocatedExpressions s !! k = Some r → allocatedExpressions s' !! k = Some r.

(** [m], when it returns a non-null identity, leaves it registered. *)
Definition returns_registered (m : M SymExpr) : Prop :=
  ∀ s e s', m s = (Ret e, s') → e ≠ nullptr → is_Some (allocatedExpressions s' !! e).

(** Once initialized, the runtime after a call is still initialized, and
    its builder and solver pointers, when set, are still set. *)
Definition carries_on (s s' : Runtime) : Prop :=
  g_initialized s = true →
  g_initialized s' = true
  ∧ (is_Some (g_expr_builder s) → is_Some (g_expr_builder s'))
  ∧ (is_Some (g_solver s) → is_Some (g_solver s')).

(** The handler in force after [calls], when [handler] was in force before
    them: the one of the last [symcc_set_test_case_handler] among them, and
    [handler] when there is none. *)
Fixpoint last_registration (calls : list Call) (handler : TestCaseHandler)
    : TestCaseHandler :=
  match calls with
  | [] => handler
  | set_test_case_handler h :: calls => last_registration calls h
  | _ :: calls => last_registration calls handler
  end.

End Runtime.

Arguments Runtime B : clear implicits.
Arguments M B A : clear implicits.

(** * A concrete environment

    A builder that hands out consecutive addresses starting at 1, on a
    64-bit target, with a hash table that iterates newest first.  The
    dependency set of the node at address [a] is stored at [a + 100]; the
    heap content below is the one of the program
    [b1 = input[1]; b2 = input[2]; b1 + b2; b5 = input[5]; b9 = input[9];
     b1 | b5; (b1 | b5) | b9; 7], whose nodes get the addresses 1 to 8; the
    constant, like every node built later, depends on no input byte. *)

Definition scenario_deref (p : DepPtr) : DependencySet :=
  if decide (p = 101) then {[1]}
  else if decide (p = 102) then {[2]}
  else if decide (p = 103) then {[1; 2]}
  else if decide (p = 104) then {[5]}
  else if decide (p = 105) then {[9]}
  else if decide (p = 106) then {[1; 5]}
  else if decide (p = 107) then {[1; 5; 9]}
  else ∅.

Definition scenario (check : list Z3Expr → check_outcome) : Environment N :=
  {| build := λ _ next, (mkExprRef next, next + 1);
     PruneExprBuilder_create := 1;
     SymbolicExprBuilder_create := 1;
     bits_of := λ _, 8;
     getDependencies := λ e, e + 100;
     deref := scenario_deref;
     toString := λ _, EmptyString;
     simplified_toZ3Expr := mkZ3Expr;
     z3_check := check;
     getConcreteValues := inputs_;
     g_config := mkConfig false true false 4;
     sizeof_uintptr_t := 8;
     rehash := id |}.

(** A solver that answers every query, and one that raises whenever asked. *)
Definition always_sat : Environment N := scenario (λ _, returns sat).
Definition faulty_solver : Environment N := scenario (λ _, faults).

(** The calls of the program above, and the state once it has built its
    eight nodes (no query is made on the way, so the state is the same with
    either solver). *)
Definition program : list Call :=
  [initialize;
   get_input_byte 1 65; get_input_byte 2 66;
   build_binary _sym_build_add 1 2;
   get_input_byte 5 67; get_input_byte 9 68;
   build_binary _sym_build_or 1 4;
   build_binary _sym_build_or 6 5;
   build_integer 7 8].

Definition eight_nodes : Runtime N :=
  run (env := always_sat) program initial_runtime.

(** Then: the address computed from [b1] was deferred. *)
Definition queued_1 : Runtime N :=
  run (env := always_sat) [asan_insert_symbolic_addr_node 1 1 4096] eight_nodes.

(** Then: one computed from [b2]. *)
Definition queued_1_2 : Runtime N :=
  run (env := always_sat) [asan_insert_symbolic_addr_node 2 2 4097] queued_1.

(** Or, after [b1]: one computed from [b1 + b2]. *)
Definition queued_1_12 : Runtime N :=
  run (env := always_sat) [asan_insert_symbolic_addr_node 3 3 4098] queued_1.

(** Or, after [b1]: one computed from [b5]; then a branch on
    [(b1 | b5) | b9] is verified. *)
Definition queued_1_5 : Runtime N :=
  run (env := always_sat) [asan_insert_symbolic_addr_node 4 4 4100] queued_1.

Definition promoted_5 : Runtime N :=
  run (env := always_sat) [asan_constraint_verify 7] queued_1_5.

(** Variations of that environment: a target with 32-bit pointers; a
    rendering of 4200 characters for every node; a builder whose first
    address is not null whatever state it starts from. *)
Definition narrow_target : Environment N :=
  {| build := build (Environment := always_sat);
     PruneExprBuilder_create := 1;
     SymbolicExprBuilder_create := 1;
     bits_of := bits_of (Environment := always_sat);
     getDependencies := getDependencies (Environment := always_sat);
     deref := scenario_deref;
     toString := toString (Environment := always_sat);
     simplified_toZ3Expr := mkZ3Expr;
     z3_check := λ _, returns sat;
     getConcreteValues := inputs_;
     g_config := mkConfig false true false 4;
     sizeof_uintptr_t := 4;
     rehash := id |}.

Definition long_rendering : string :=
  String.string_of_list_ascii (replicate 4200 (Ascii.ascii_of_nat 120)).

Definition verbose : Environment N :=
  {| build := build (Environment := always_sat);
     PruneExprBuilder_create := 1;
     SymbolicExprBuilder_create := 1;
     bits_of := bits_of (Environment := always_sat);
     getDependencies := getDependencies (Environment := always_sat);
     deref := scenario_deref;
     toString := λ _, long_rendering;
     simplified_toZ3Expr := mkZ3Expr;
     z3_check := λ _, returns sat;
     getConcreteValues := inputs_;
     g_config := mkConfig false true false 4;
     sizeof_uintptr_t := 8;
     rehash := id |}.

Definition never_null : Environment N :=
  {| build := λ _ last, (mkExprRef (N.succ last), N.succ last);
     PruneExprBuilder_create := 0;
     SymbolicExprBuilder_create := 0;
     bits_of := bits_of (Environment := always_sat);
     getDependencies := getDependencies (Environment := always_sat);
     deref := scenario_deref;
     toString := toString (Environment := always_sat);
     simplified_toZ3Expr := mkZ3Expr;
     z3_check := λ _, returns sat;
     getConcreteValues := inputs_;
     g_config := mkConfig false true false 4;
     sizeof_uintptr_t := 8;
     rehash := id |}.

(** After [b1]'s address was deferred with the node [b2] as its address
    expression, a collection that finds only [b1] and the branch condition
    reachable drops [b2] from the registry. *)
Definition collected : Runtime N :=
  run (env := always_sat)
    [asan_insert_symbolic_addr_node 1 2 4096; collect_garbage {[1; 7]}]
    eight_nodes.

(** After [b1]'s address was deferred with [b1] itself as its address
    expression, a collection that finds only the branch condition reachable
    drops [b1] from the registry. *)
Definition swept_to_branch : Runtime N :=
  run (env := always_sat)
    [asan_insert_symbolic_addr_node 1 1 4096; collect_garbage {[7]}]
    eight_nodes.

(** * Properties *)

Section Properties.

Context {B : Type} {env : Environment B}.

(** ** Reasoning about entry points *)

Ltac unfold_M :=
  unfold mbind, M_bind, bind, mret, M_ret, ret, gets, modify, raise in *.

Ltac unfold_entry_points :=
  unfold _sym_build_integer, _sym_build_integer128, _sym_build_null_pointer,
    _sym_build_true, _sym_build_false, _sym_build_bool, DEF_BINARY_EXPR_BUILDER,
    _sym_build_neg, _sym_build_not, _sym_build_ite, _sym_build_sext,
    _sym_build_zext, _sym_build_trunc, _sym_build_bool_to_bit, UNSUPPORTED,
    _sym_get_input_byte, _sym_concat_helper, _sym_extract_helper,
    _sym_bits_helper, _sym_push_path_constraint, _sym_asan_push_path_constraint,
    _sym_asan_test_dependency, _sym_asan_insert_symbolic_addr_node,
    _sym_asan_is_symexpr_exact, _sym_notify_call, _sym_notify_ret,
    _sym_notify_basic_block, _sym_expr_to_string, _sym_feasible,
    _sym_collect_garbage, symcc_set_test_case_handler, saveValues, addJcc.

#[local] Instance same_reflexive {X} (f : Runtime B → X) : Reflexive (same f).
Proof. by intros s. Qed.

#[local] Instance same_transitive {X} (f : Runtime B → X) : Transitive (same f).
Proof. unfold same. intros s1 s2 s3 H12 H23. congruence. Qed.

#[local] Instance registry_step_reflexive : Reflexive registry_step.
Proof. intros s k r Hk. by left. Qed.

#[local] Instance registry_step_transitive : Transitive registry_step.
Proof.
  intros s1 s2 s3 H12 H23 k r Hk.
  destruct (H23 k r Hk) as [Hk2|Hbuilt]; [by apply H12 | by right].
Qed.

Section Steps.

Context (R : relation (Runtime B)) `{!Reflexive R, !Transitive R}.

Lemma steps_ret {A} (a : A) : steps R (mret a).
Proof. intros s. simpl. reflexivity. Qed.

Lemma steps_raise {A} (e : Abort) : steps R (raise e : M B A).
Proof. intros s. simpl. reflexivity. Qed.

Lemma steps_gets {A} (g : Runtime B → A) : steps R (gets g).
Proof. intros s. simpl. reflexivity. Qed.

Lemma steps_at (e : SymExpr) : steps R (at_ e).
Proof.
  intros s. unfold at_. destruct (allocatedExpressions s !! e); simpl; reflexivity.
Qed.

Lemma steps_bind {A C} (m : M B A) (g : A → M B C) :
  steps R m → (∀ a, steps R (g a)) → steps R (m ≫= g).
Proof.
  intros Hm Hg s. unfold_M. specialize (Hm s).
  destruct (m s) as [[a|e] s1]; simpl in *; [|done].
  etrans; [done | apply Hg].
Qed.

Lemma steps_modify (g : Runtime B → Runtime B) :
  (∀ s, R s (g s)) → steps R (modify g).
Proof. intros H s. apply H. Qed.

Lemma steps_builder (c : BuilderCall) :
  (∀ s b, R s (with_builder s b)) → steps R (builder c).
Proof.
  intros H s. unfold builder. destruct (g_expr_builder s); [|simpl; reflexivity].
  destruct (build c b); simpl. apply H.
Qed.

Lemma steps_solver {A} (g : Solver → Outcome A * Solver) :
  (∀ s sv, R s (with_solver s sv)) → steps R (solver g).
Proof.
  intros H s. unfold solver. destruct (g_solver s) as [sv|]; [|simpl; reflexivity].
  destruct (g sv); simpl. apply H.
Qed.

(** Every registration in the file files an answer of the builder. *)
Lemma steps_build_register (c : BuilderCall) :
  (∀ s b, R s (with_builder s b)) →
  (∀ s b, R s (with_allocatedExpressions s
                 (<[get (build c b).1 := (build c b).1]> (allocatedExpressions s)))) →
  steps R (e ← builder c; registerExpression e).
Proof.
  intros Hbuilder Hregister s. unfold_M. unfold builder.
  destruct (g_expr_builder s) as [b|]; [|simpl; reflexivity].
  pose proof (Hregister (with_builder s (Some (build c b).2)) b) as Hreg.
  destruct (build c b) as [e b']; simpl in *. unfold registerExpression. simpl.
  destruct (allocatedExpressions s !! get e); simpl.
  - apply Hbuilder.
  - etrans; [apply (Hbuilder s (Some b')) | apply Hreg].
Qed.

End Steps.

Lemma registry_step_register (c : BuilderCall) (s : Runtime B) (b : B) :
  registry_step s (with_allocatedExpressions s
                     (<[get (build c b).1 := (build c b).1]> (allocatedExpressions s))).
Proof.
  intros k r. simpl. rewrite lookup_insert. case_decide as Hk.
  - intros [= <-]. right. split; [done|]. by exists c, b.
  - by left.
Qed.

Lemma registry_step_same (s s' : Runtime B) :
  allocatedExpressions s' = allocatedExpressions s → registry_step s s'.
Proof. intros Heq k r Hk. left. by rewrite <- Heq. Qed.

Lemma registry_step_sweep (reachable : gset SymExpr) (s : Runtime B) :
  registry_step s (with_allocatedExpressions s
                     (filter (λ kv, kv.1 ∈ reachable) (allocatedExpressions s))).
Proof. intros k r. simpl. intros Hk. left. by apply map_lookup_filter_Some in Hk as [? _]. Qed.

(** Splits an entry point into its primitive steps. *)
Ltac steps_side :=
  intros;
  first [ done
        | apply registry_step_register
        | apply registry_step_sweep
        | apply registry_step_same; reflexivity ].

Ltac steps_tac :=
  repeat first
    [ apply steps_ret; apply _ | apply steps_raise; apply _
    | apply steps_gets; apply _ | apply steps_at; apply _
    | apply steps_build_register; [apply _ | apply _ | steps_side | steps_side]
    | apply steps_bind; [apply _ | |intros ?]
    | apply steps_builder; [apply _ | steps_side]
    | apply steps_solver; [apply _ | steps_side]
    | apply steps_modify; steps_side
    | case_decide
    | case_match ].

(** ** The deferred queue: insertion *)

Lemma includes_subseteq (a b : DependencySet) : includes a b = true ↔ b ⊆ a.
Proof. unfold includes. apply bool_decide_eq_true. Qed.

Lemma includes_not_subseteq (a b : DependencySet) : includes a b = false ↔ b ⊈ a.
Proof. unfold includes. apply bool_decide_eq_false. Qed.

Lemma covered_by_resident (dep : DependencySet) (q : list QueueEntry) :
  existsb (λ entry : QueueEntry, includes (deref entry.1) dep) q = true
  ↔ ∃ entry, entry ∈ q ∧ dep ⊆ deref entry.1.
Proof.
  rewrite existsb_exists. split.
  - intros (e & Hin & Hsub). exists e. split; [by apply list_elem_of_In|].
    by apply includes_subseteq.
  - intros (e & Hin & Hsub). exists e. split; [by apply list_elem_of_In|].
    by apply includes_subseteq.
Qed.

Lemma not_covered_by_resident (dep : DependencySet) (q : list QueueEntry) :
  existsb (λ entry : QueueEntry, includes (deref entry.1) dep) q = false
  ↔ ∀ entry, entry ∈ q → dep ⊈ deref entry.1.
Proof.
  rewrite <- not_true_iff_false, covered_by_resident. split.
  - intros Hno e He Hsub. apply Hno. by exists e.
  - intros Hall (e & He & Hsub). by apply (Hall e He).
Qed.

(** A key whose set no resident entry covers is not yet in the table. *)
Lemma uncovered_key_fresh (key : DepPtr) (q : list QueueEntry) :
  (∀ entry, entry ∈ q → deref key ⊈ deref entry.1) → key ∉ q.*1.
Proof.
  intros Hq Hin. apply list_elem_of_fmap in Hin as (e & -> & He).
  by apply (Hq e He).
Qed.

(** What [_sym_asan_insert_symbolic_addr_node] does, by cases. *)
Lemma insert_symbolic_addr_node_eq (s : Runtime B) (value addr : SymExpr)
    (concrete_addr : N) (node : ExprRef) :
  allocatedExpressions s !! value = Some node →
  let key := getDependencies (get node) in
  let q := g_delay_constraint_queue s in
  _sym_asan_insert_symbolic_addr_node value addr concrete_addr s =
    (Ret tt,
     if includes (g_exact_dependencies s) (deref key) then s
     else if existsb (λ entry : QueueEntry, includes (deref entry.1) (deref key)) q then s
     else with_queue s (queue_insert key (addr, concrete_addr) q)).
Proof.
  intros Hnode key q. unfold _sym_asan_insert_symbolic_addr_node, at_. unfold_M.
  rewrite Hnode. simpl. fold key.
  destruct (includes (g_exact_dependencies s) (deref key)); [done|].
  fold q. by destruct (existsb _ q).
Qed.

(** C1. Insertion into the deferred queue, for a registered node whose
    dependency set is [dep]: when [dep] is a subset of the exact dependency
    set the call changes nothing; otherwise, when some resident entry's set
    is a superset of [dep], the call changes nothing; otherwise the queue
    gains the entry mapping [dep] (by its pointer) to the pair of the
    symbolic address and the concrete address, the resident entries stay,
    and nothing but the queue changes. *)
Theorem insert_symbolic_addr_node_spec {keeps_all : RehashKeeps env}
    (s : Runtime B) (value addr : SymExpr) (concrete_addr : N) (node : ExprRef) :
  allocatedExpressions s !! value = Some node →
  let key := getDependencies (get node) in
  let dep := deref key in
  let q := g_delay_constraint_queue s in
  ∃ s', _sym_asan_insert_symbolic_addr_node value addr concrete_addr s = (Ret tt, s') ∧
    (dep ⊆ g_exact_dependencies s → s' = s) ∧
    (dep ⊈ g_exact_dependencies s →
     (∃ entry, entry ∈ q ∧ dep ⊆ deref entry.1) → s' = s) ∧
    (dep ⊈ g_exact_dependencies s →
     (∀ entry, entry ∈ q → dep ⊈ deref entry.1) →
     g_delay_constraint_queue s' ≡ₚ (key, (addr, concrete_addr)) :: q ∧
     s' = with_queue s (g_delay_constraint_queue s')).
Proof.
  intros Hnode key dep q. eexists. split.
  { by apply insert_symbolic_addr_node_eq. }
  fold key q. split; [|split].
  - intros Hsub. apply includes_subseteq in Hsub. fold dep. by rewrite Hsub.
  - intros Hexact Hcov. apply includes_not_subseteq in Hexact.
    apply covered_by_resident in Hcov. fold dep. by rewrite Hexact, Hcov.
  - intros Hexact Hcov. pose proof (uncovered_key_fresh key q Hcov) as Hfresh.
    apply includes_not_subseteq in Hexact.
    apply not_covered_by_resident in Hcov. fold dep. rewrite Hexact, Hcov.
    unfold queue_insert. rewrite decide_False by done. simpl.
    split; [apply rehash_perm | done].
Qed.

(** C2, as the code has it. A candidate whose dependency set is a subset
    of (or equal to) some resident entry's set is dropped and the state is
    unchanged; a candidate whose set is a strict superset of every resident
    entry's set, and not a subset of the exact dependency set, is enqueued. *)
Theorem insert_drops_subsets_only {keeps_all : RehashKeeps env}
    (s : Runtime B) (value addr : SymExpr) (concrete_addr : N) (node : ExprRef) :
  allocatedExpressions s !! value = Some node →
  let key := getDependencies (get node) in
  let dep := deref key in
  let q := g_delay_constraint_queue s in
  ((∃ entry, entry ∈ q ∧ dep ⊆ deref entry.1) →
   _sym_asan_insert_symbolic_addr_node value addr concrete_addr s = (Ret tt, s))
  ∧ (dep ⊈ g_exact_dependencies s →
     (∀ entry, entry ∈ q → deref entry.1 ⊂ dep) →
     ∃ s', _sym_asan_insert_symbolic_addr_node value addr concrete_addr s = (Ret tt, s')
           ∧ g_delay_constraint_queue s' ≡ₚ (key, (addr, concrete_addr)) :: q).
Proof.
  intros Hnode key dep q.
  rewrite (insert_symbolic_addr_node_eq s value addr concrete_addr node Hnode).
  fold key q dep. split.
  - intros Hcov. apply covered_by_resident in Hcov. rewrite Hcov.
    by destruct (includes _ _).
  - intros Hexact Hsup.
    assert (∀ entry, entry ∈ q → dep ⊈ deref entry.1) as Hcov.
    { intros e He. by destruct (Hsup e He). }
    pose proof (uncovered_key_fresh key q Hcov) as Hfresh.
    apply includes_not_subseteq in Hexact.
    apply not_covered_by_resident in Hcov. rewrite Hexact, Hcov.
    eexists. split; [done|]. simpl. unfold queue_insert.
    rewrite decide_False by done. apply rehash_perm.
Qed.

(** ** The registry under construction calls *)

Lemma registerExpression_eq (e : ExprRef) (s : Runtime B) :
  registerExpression e s = (Ret (get e), registered e s).
Proof.
  unfold registered, registerExpression.
  by destruct (allocatedExpressions s !! get e).
Qed.

Lemma registered_wf (e : ExprRef) (s : Runtime B) :
  registry_wf s → registry_wf (registered e s).
Proof.
  intros Hwf k r. unfold registered, registerExpression.
  destruct (allocatedExpressions s !! get e) eqn:He; simpl; [apply Hwf|].
  rewrite lookup_insert. case_decide; [naive_solver | apply Hwf].
Qed.

Lemma registered_lookup_self (e : ExprRef) (s : Runtime B) :
  registry_wf s → allocatedExpressions (registered e s) !! get e = Some e.
Proof.
  intros Hwf. unfold registered, registerExpression.
  destruct (allocatedExpressions s !! get e) as [r|] eqn:He; simpl.
  - rewrite He. f_equal. apply Hwf in He. destruct r, e; simpl in *. by subst.
  - by rewrite lookup_insert_eq.
Qed.

Lemma registered_lookup_old (e : ExprRef) (s : Runtime B) (k : SymExpr) (r : ExprRef) :
  allocatedExpressions s !! k = Some r →
  allocatedExpressions (registered e s) !! k = Some r.
Proof.
  intros Hk. unfold registered, registerExpression.
  destruct (allocatedExpressions s !! get e) eqn:He; simpl; [done|].
  rewrite lookup_insert_ne; [done|]. intros <-. congruence.
Qed.

Lemma registered_fields (e : ExprRef) (s : Runtime B) :
  g_delay_constraint_queue (registered e s) = g_delay_constraint_queue s
  ∧ g_exact_dependencies (registered e s) = g_exact_dependencies s
  ∧ g_expr_builder (registered e s) = g_expr_builder s
  ∧ g_solver (registered e s) = g_solver s.
Proof.
  unfold registered, registerExpression.
  by destruct (allocatedExpressions s !! get e).
Qed.

Lemma at_eq (s : Runtime B) (k : SymExpr) (r : ExprRef) :
  allocatedExpressions s !! k = Some r → at_ k s = (Ret r, s).
Proof. intros Hk. unfold at_. by rewrite Hk. Qed.

Lemma builder_eq (s : Runtime B) (c : BuilderCall) (b : B) :
  g_expr_builder s = Some b →
  builder c s = (Ret (build c b).1, with_builder s (Some (build c b).2)).
Proof. intros Hb. unfold builder. rewrite Hb. by destruct (build c b). Qed.

Lemma _sym_build_integer_eq (value bits : N) :
  _sym_build_integer value bits =
  (e ← builder (integer_request value bits); registerExpression e).
Proof.
  unfold _sym_build_integer, integer_request.
  case_decide; [done|]. case_decide as Hfits; [|done]. by rewrite Hfits.
Qed.

Lemma integer_request_64 (value : N) :
  integer_request value 64 = createConstant value 64
  ∨ integer_request value 64 = createConstantAP 64 value 64.
Proof. unfold integer_request. repeat case_decide; auto. Qed.

(** The state after building and registering the answer to a request. *)
Lemma build_and_register (s : Runtime B) (c : BuilderCall) (b : B) :
  g_expr_builder s = Some b →
  (e ← builder c; registerExpression e) s =
  (Ret (get (build c b).1),
   registered (build c b).1 (with_builder s (Some (build c b).2))).
Proof.
  intros Hb. unfold_M. rewrite (builder_eq s c b Hb).
  by rewrite registerExpression_eq.
Qed.

Lemma binary_builder_eq (s : Runtime B) (name : BinaryBuilder) (a b : SymExpr)
    (ea eb : ExprRef) (bs : B) :
  allocatedExpressions s !! a = Some ea →
  allocatedExpressions s !! b = Some eb →
  g_expr_builder s = Some bs →
  let r := build (createBinary (qsymName name) ea eb) bs in
  DEF_BINARY_EXPR_BUILDER name a b s =
  (Ret (get r.1), registered r.1 (with_builder s (Some r.2))).
Proof.
  intros Ha Hb Hbs r. unfold DEF_BINARY_EXPR_BUILDER. unfold_M.
  rewrite (at_eq s a ea Ha), (at_eq s b eb Hb).
  rewrite (builder_eq s _ bs Hbs). fold r. by rewrite registerExpression_eq.
Qed.

Lemma push_path_constraint_eq (s : Runtime B) (constraint : SymExpr) (taken : Z)
    (site_id : N) (e : ExprRef) (sv : Solver) :
  constraint ≠ nullptr →
  allocatedExpressions s !! constraint = Some e →
  g_solver s = Some sv →
  _sym_push_path_constraint constraint taken site_id s =
  (Ret tt,
   with_solver s
     (Some (with_path_constraints sv
              (path_constraints sv ++ [mkJcc e (bool_decide (taken ≠ 0%Z)) site_id false])))).
Proof.
  intros Hnn He Hsv. unfold _sym_push_path_constraint. rewrite decide_False by done.
  unfold_M. rewrite (at_eq s constraint e He). unfold addJcc, solver. by rewrite Hsv.
Qed.

(** ** The deferred queue: verification *)

Lemma verify_loop_passes_over (br_dep : DependencySet) (pre rest : list QueueEntry)
    (iter : nat) :
  (∀ e, e ∈ pre → deref e.1 ⊈ br_dep) →
  verify_loop br_dep iter (pre ++ rest) = verify_loop br_dep (iter + length pre) rest.
Proof.
  revert iter. induction pre as [|[key [addr_sym addr_con]] pre IH]; intros iter Hpre.
  - simpl. by rewrite Nat.add_0_r.
  - simpl. rewrite (proj2 (includes_not_subseteq _ _)); simpl.
    + rewrite IH; [f_equal; lia|]. intros e He. apply Hpre. by right.
    + apply (Hpre (key, (addr_sym, addr_con))). by left.
Qed.

Lemma verify_loop_finds_none (br_dep : DependencySet) (q : list QueueEntry) (s : Runtime B) :
  (∀ e, e ∈ q → deref e.1 ⊈ br_dep) →
  verify_loop br_dep 0 q s = (Ret tt, s).
Proof.
  intros Hq. rewrite <- (app_nil_r q).
  by rewrite (verify_loop_passes_over br_dep q [] 0 Hq).
Qed.

(** The scan up to the equality: the constant for the concrete address is
    built and registered before the entry's address identity is looked up. *)
Lemma verify_reaches_match (s : Runtime B) (expr : SymExpr) (node : ExprRef)
    (pre post : list QueueEntry) (key : DepPtr) (addr_sym : SymExpr)
    (addr_con : N) (b : B) :
  allocatedExpressions s !! expr = Some node →
  let br_dep := deref (getDependencies (get node)) in
  g_delay_constraint_queue s = pre ++ (key, (addr_sym, addr_con)) :: post →
  (∀ entry, entry ∈ pre → deref entry.1 ⊈ br_dep) →
  deref key ⊆ br_dep →
  g_expr_builder s = Some b →
  let c := build (integer_request addr_con 64) b in
  _sym_asan_constraint_verify expr s
  = (eq ← DEF_BINARY_EXPR_BUILDER _sym_build_equal (get c.1) addr_sym;
     _sym_push_path_constraint eq 1 0;;
     modify (λ s, with_exact s (g_exact_dependencies s ∪ deref key));;
     modify (λ s, with_queue s (delete (length pre) (g_delay_constraint_queue s))))
      (registered c.1 (with_builder s (Some c.2))).
Proof.
  intros Hnode br_dep Hq Hpre Hkey Hb c.
  unfold _sym_asan_constraint_verify. unfold_M.
  rewrite decide_False by (rewrite Hq; by destruct pre).
  rewrite (at_eq s expr node Hnode). fold br_dep.
  rewrite Hq, (verify_loop_passes_over br_dep pre _ 0 Hpre).
  simpl. rewrite (proj2 (includes_subseteq _ _) Hkey). simpl. unfold_M.
  by rewrite _sym_build_integer_eq, (build_and_register s _ b Hb).
Qed.

(** The first matching entry names an address identity that is not
    registered once the constant is: the lookup aborts the call. *)
Lemma verify_aborts_at_match (s : Runtime B) (expr : SymExpr) (node : ExprRef)
    (pre post : list QueueEntry) (key : DepPtr) (addr_sym : SymExpr)
    (addr_con : N) (b : B) :
  allocatedExpressions s !! expr = Some node →
  let br_dep := deref (getDependencies (get node)) in
  g_delay_constraint_queue s = pre ++ (key, (addr_sym, addr_con)) :: post →
  (∀ entry, entry ∈ pre → deref entry.1 ⊈ br_dep) →
  deref key ⊆ br_dep →
  registry_wf s →
  g_expr_builder s = Some b →
  let c := build (integer_request addr_con 64) b in
  allocatedExpressions s !! addr_sym = None →
  get c.1 ≠ addr_sym →
  ∃ s', _sym_asan_constraint_verify expr s = (Raise out_of_range, s')
    ∧ g_delay_constraint_queue s' = g_delay_constraint_queue s
    ∧ g_exact_dependencies s' = g_exact_dependencies s
    ∧ g_solver s' = g_solver s
    ∧ allocatedExpressions s' !! get c.1 = Some c.1
    ∧ g_expr_builder s' = Some c.2.
Proof.
  intros Hnode br_dep Hq Hpre Hkey Hwf Hb c Hgone Hother.
  rewrite (verify_reaches_match s expr node pre post key addr_sym addr_con b)
    by done.
  fold c. set (s1 := registered c.1 (with_builder s (Some c.2))).
  assert (allocatedExpressions s1 !! get c.1 = Some c.1) as Hc
    by (by apply registered_lookup_self).
  assert (allocatedExpressions s1 !! addr_sym = None) as Hgone1.
  { unfold s1, registered, registerExpression. simpl.
    destruct (allocatedExpressions s !! get c.1); simpl; [done|].
    by rewrite lookup_insert_ne. }
  unfold DEF_BINARY_EXPR_BUILDER. unfold_M.
  rewrite (at_eq s1 _ _ Hc). unfold at_ at 1. rewrite Hgone1.
  exists s1. split; [done|].
  destruct (registered_fields c.1 (with_builder s (Some c.2)))
    as (Hq1 & Hx1 & Hb1 & Hsv1).
  fold s1 in Hq1, Hx1, Hb1, Hsv1. by rewrite Hq1, Hx1, Hb1, Hsv1.
Qed.

(** C3, as the code has it. Verification against a branch node. With an
    empty queue the call does nothing (and looks nothing up). Otherwise, for
    a registered branch node with dependency set [br_dep]: when no resident
    set is a subset of [br_dep] nothing changes; when the entry
    [(key, (addr_sym, addr_con))] is the first in scan order whose set is a
    subset of [br_dep], the 64-bit constant for [addr_con] is built and
    registered, and [addr_sym] is looked up in the registry.
    - When [addr_sym] is registered at that moment (it was before the call,
      or it is the identity of the constant just built), the equality
      between the constant and the expression registered under [addr_sym]
      is submitted as one path constraint, taken, at site 0, as an ordinary
      (non-sanitizer) constraint; the entry's set is merged into the exact
      dependency set; the entry leaves the queue and every other entry
      stays, in order.
    - When it is not, the call aborts with [std::out_of_range]: no entry is
      promoted, no path constraint is submitted, and the queue and the exact
      dependency set are as before. *)
Theorem constraint_verify_spec (s : Runtime B) (expr : SymExpr) :
  let q := g_delay_constraint_queue s in
  (q = [] → _sym_asan_constraint_verify expr s = (Ret tt, s))
  ∧ ∀ node, allocatedExpressions s !! expr = Some node →
    let br_dep := deref (getDependencies (get node)) in
    ((∀ entry, entry ∈ q → deref entry.1 ⊈ br_dep) →
     _sym_asan_constraint_verify expr s = (Ret tt, s))
    ∧ ∀ pre key addr_sym addr_con post b,
        q = pre ++ (key, (addr_sym, addr_con)) :: post →
        (∀ entry, entry ∈ pre → deref entry.1 ⊈ br_dep) →
        deref key ⊆ br_dep →
        registry_wf s →
        g_expr_builder s = Some b →
        let c := build (integer_request addr_con 64) b in
        (integer_request addr_con 64 = createConstant addr_con 64
         ∨ integer_request addr_con 64 = createConstantAP 64 addr_con 64)
        ∧ (∀ sv,
             g_solver s = Some sv →
             is_Some (allocatedExpressions s !! addr_sym) ∨ addr_sym = get c.1 →
             let eq := build (createBinary Equal c.1 (mkExprRef addr_sym)) c.2 in
             get eq.1 ≠ nullptr →
             ∃ s', _sym_asan_constraint_verify expr s = (Ret tt, s')
               ∧ g_delay_constraint_queue s' = pre ++ post
               ∧ g_exact_dependencies s' = g_exact_dependencies s ∪ deref key
               ∧ g_solver s' =
                   Some (with_path_constraints sv
                           (path_constraints sv ++ [mkJcc eq.1 true 0 false])))
        ∧ (allocatedExpressions s !! addr_sym = None →
           addr_sym ≠ get c.1 →
           ∃ s', _sym_asan_constraint_verify expr s = (Raise out_of_range, s')
             ∧ g_delay_constraint_queue s' = q
             ∧ g_exact_dependencies s' = g_exact_dependencies s
             ∧ g_solver s' = g_solver s).
Proof.
  intros q. split.
  { intros Hq. unfold _sym_asan_constraint_verify. unfold_M. fold q.
    by rewrite decide_True. }
  intros node Hnode br_dep. split.
  { intros Hnone. unfold _sym_asan_constraint_verify. unfold_M. fold q.
    case_decide; [done|]. rewrite (at_eq s expr node Hnode). fold br_dep.
    by apply verify_loop_finds_none. }
  intros pre key addr_sym addr_con post b Hq Hpre Hkey Hwf Hb c.
  split; [apply integer_request_64|]. split.
  2: { intros Hgone Hother.
       destruct (verify_aborts_at_match s expr node pre post key addr_sym addr_con b)
         as (s' & Hrun & Hq' & Hx' & Hsv' & _); try done.
       by exists s'. }
  intros sv Hsv Hregistered eq Hnonnull.
  rewrite (verify_reaches_match s expr node pre post key addr_sym addr_con b)
    by done.
  fold c. set (s1 := registered c.1 (with_builder s (Some c.2))).
  assert (registry_wf s1) as Hwf1 by (by apply registered_wf).
  assert (allocatedExpressions s1 !! get c.1 = Some c.1) as Hc
    by (by apply registered_lookup_self).
  assert (allocatedExpressions s1 !! addr_sym = Some (mkExprRef addr_sym)) as Haddr.
  { destruct Hregistered as [[ea Hea]| ->].
    - apply registered_lookup_old. simpl. rewrite Hea. f_equal.
      rewrite <- (Hwf _ _ Hea). by destruct ea.
    - rewrite Hc. f_equal. by destruct (c.1). }
  unfold_M.
  rewrite (binary_builder_eq s1 _sym_build_equal (get c.1) addr_sym c.1
             (mkExprRef addr_sym) c.2 Hc Haddr).
  2: { unfold s1.
       by destruct (registered_fields c.1 (with_builder s (Some c.2))) as (_ & _ & -> & _). }
  simpl qsymName. fold eq.
  set (s2 := registered eq.1 (with_builder s1 (Some eq.2))).
  unfold_M.
  rewrite (push_path_constraint_eq s2 (get eq.1) 1 0 eq.1 sv Hnonnull).
  2: { by apply registered_lookup_self. }
  2: { unfold s2.
       destruct (registered_fields eq.1 (with_builder s1 (Some eq.2))) as (_ & _ & _ & ->).
       simpl. unfold s1.
       by destruct (registered_fields c.1 (with_builder s (Some c.2))) as (_ & _ & _ & ->). }
  eexists. split; [done|].
  assert (g_delay_constraint_queue s2 = g_delay_constraint_queue s
          ∧ g_exact_dependencies s2 = g_exact_dependencies s) as [Hq2 Hx2].
  { unfold s2.
    destruct (registered_fields eq.1 (with_builder s1 (Some eq.2))) as (-> & -> & _).
    simpl. unfold s1.
    by destruct (registered_fields c.1 (with_builder s (Some c.2))) as (-> & -> & _). }
  simpl. rewrite Hq2, Hx2. fold q. rewrite Hq.
  split; [|done]. apply delete_middle.
Qed.

(** ** What each entry point does to the queue and the exact set *)

Lemma build_integer_keeps_queue (value bits : N) :
  keeps queue_state (_sym_build_integer value bits).
Proof. unfold keeps, _sym_build_integer. steps_tac. Qed.

Lemma binary_builder_keeps_queue (name : BinaryBuilder) (a b : SymExpr) :
  keeps queue_state (DEF_BINARY_EXPR_BUILDER name a b).
Proof. unfold keeps, DEF_BINARY_EXPR_BUILDER. steps_tac. Qed.

Lemma push_path_constraint_keeps_queue (constraint : SymExpr) (taken : Z) (site_id : N) :
  keeps (B := B) queue_state (_sym_push_path_constraint constraint taken site_id).
Proof. unfold keeps, _sym_push_path_constraint, addJcc. steps_tac. Qed.

Lemma initialize_keeps_queue : keeps queue_state _sym_initialize.
Proof. intros s. unfold _sym_initialize. by repeat case_match. Qed.

Lemma insert_queue_step (value addr : SymExpr) (concrete_addr : N) (s : Runtime B) :
  queue_step s (_sym_asan_insert_symbolic_addr_node value addr concrete_addr s).2.
Proof.
  destruct (allocatedExpressions s !! value) as [node|] eqn:Hnode.
  - rewrite (insert_symbolic_addr_node_eq s value addr concrete_addr node Hnode). simpl.
    destruct (includes _ _) eqn:Hexact; [by apply queue_kept|].
    destruct (existsb _ _) eqn:Hcov; [by apply queue_kept|].
    apply includes_not_subseteq in Hexact.
    pose proof (proj1 (not_covered_by_resident _ _) Hcov) as Hcov'.
    eapply queue_enqueued; [done|done| |done].
    simpl. unfold queue_insert. rewrite decide_False; [done|].
    by apply uncovered_key_fresh.
  - apply queue_kept. unfold _sym_asan_insert_symbolic_addr_node, at_. unfold_M.
    by rewrite Hnode.
Qed.

Lemma verify_loop_queue_step (br_dep : DependencySet) (pre rest : list QueueEntry)
    (s : Runtime B) :
  g_delay_constraint_queue s = pre ++ rest →
  queue_step s (verify_loop br_dep (length pre) rest s).2.
Proof.
  revert pre. induction rest as [|[key [addr_sym addr_con]] rest IH]; intros pre Hq.
  { by apply queue_kept. }
  simpl. destruct (includes br_dep (deref key)); simpl.
  2: { replace (S (length pre)) with (length (pre ++ [(key, (addr_sym, addr_con))]))
         by (rewrite length_app; simpl; lia).
       apply IH. by rewrite <- app_assoc. }
  unfold_M.
  pose proof (build_integer_keeps_queue addr_con 64 s) as H1.
  destruct (_sym_build_integer addr_con 64 s) as [[c|e] s1]; simpl in H1;
    [|by apply queue_kept].
  pose proof (binary_builder_keeps_queue _sym_build_equal c addr_sym s1) as H2.
  destruct (DEF_BINARY_EXPR_BUILDER _sym_build_equal c addr_sym s1) as [[eq|e] s2];
    simpl in H2; [|apply queue_kept; simpl; congruence].
  pose proof (push_path_constraint_keeps_queue eq 1 0 s2) as H3.
  destruct (_sym_push_path_constraint eq 1 0 s2) as [[[]|e] s3];
    simpl in H3; [|apply queue_kept; simpl; congruence].
  assert (queue_state s3 = queue_state s) as Hs3 by congruence.
  injection Hs3 as Hq3 Hx3.
  apply (queue_promoted _ _ (length pre) (key, (addr_sym, addr_con))); simpl.
  - by rewrite Hq, list_lookup_middle.
  - by rewrite Hq3.
  - by rewrite Hx3.
Qed.

Lemma verify_queue_step (expr : SymExpr) (s : Runtime B) :
  queue_step s (_sym_asan_constraint_verify expr s).2.
Proof.
  unfold _sym_asan_constraint_verify. unfold_M.
  case_decide; [by apply queue_kept|].
  unfold at_. destruct (allocatedExpressions s !! expr) as [node|]; [|by apply queue_kept].
  by apply (verify_loop_queue_step _ []).
Qed.

Lemma exec_queue_step (c : Call) (s : Runtime B) : queue_step s (exec c s).2.
Proof.
  assert (∀ {A} (wrap : A → Value) (m : M B A) s, (returning wrap m s).2 = (m s).2) as Hret.
  { intros A wrap m s0. unfold returning. unfold_M. by destruct (m s0) as [[?|?] ?]. }
  destruct c; cbv [exec]; rewrite Hret;
    try apply insert_queue_step; try apply verify_queue_step;
    apply queue_kept.
  all: match goal with
       | |- queue_state (?m ?st).2 = _ => revert st; change (keeps queue_state m)
       end.
  all: try apply initialize_keeps_queue; try apply build_integer_keeps_queue;
    try apply binary_builder_keeps_queue; try apply push_path_constraint_keeps_queue.
  all: unfold_entry_points.
  all: unfold keeps; steps_tac.
Qed.

Lemma run_cons (c : Call) (calls : list Call) (s : Runtime B) :
  run (c :: calls) s = run calls (exec c s).2.
Proof. done. Qed.

(** A property kept by every queue step holds after every sequence of calls. *)
Lemma run_invariant (P : Runtime B → Prop) :
  (∀ s s', queue_step s s' → P s → P s') →
  ∀ calls s, P s → P (run calls s).
Proof.
  intros Hstep calls. induction calls as [|c calls IH]; intros s Hs; [done|].
  rewrite run_cons. apply IH. eapply Hstep; [apply exec_queue_step | done].
Qed.

(** ** The exact dependency set *)

Lemma queue_step_exact_grows (s s' : Runtime B) :
  queue_step s s' → g_exact_dependencies s ⊆ g_exact_dependencies s'.
Proof.
  intros [Hkept | key value _ _ _ Hexact | iter entry _ _ Hexact].
  - injection Hkept as _ ->. done.
  - by rewrite Hexact.
  - rewrite Hexact. apply union_subseteq_l.
Qed.

(** C5. Whatever the sequence of calls into the runtime, every input-byte
    offset in the exact dependency set before it is still in the set after
    it. *)
Theorem exact_dependencies_only_grow (calls : list Call) (s : Runtime B) :
  ∀ offset, offset ∈ g_exact_dependencies s →
            offset ∈ g_exact_dependencies (run calls s).
Proof.
  revert s. induction calls as [|c calls IH]; intros s offset Hin; [done|].
  rewrite run_cons. apply IH.
  by apply (queue_step_exact_grows s _ (exec_queue_step c s)).
Qed.

(** ** The queue never holds a set twice *)

Lemma resident_sets_delete (s s' : Runtime B) (iter : nat) :
  g_delay_constraint_queue s' = delete iter (g_delay_constraint_queue s) →
  resident_sets s' = delete iter (resident_sets s).
Proof.
  unfold resident_sets. intros ->. revert iter.
  induction (g_delay_constraint_queue s) as [|e q IH]; intros [|i]; simpl; try done.
  f_equal. apply IH.
Qed.

Lemma queue_step_no_repeat {keeps_all : RehashKeeps env} (s s' : Runtime B) :
  queue_step s s' → no_repeat s → no_repeat s'.
Proof.
  intros Hstep [Hnodup Hnonempty].
  destruct Hstep as [Hkept | key value Hexact Hcov Hq _ | iter entry _ Hq _].
  - injection Hkept as Hq _. unfold no_repeat, resident_sets in *. by rewrite Hq.
  - assert (resident_sets s' ≡ₚ deref key :: resident_sets s) as Hperm.
    { unfold resident_sets. rewrite Hq, rehash_perm. done. }
    split.
    + rewrite Hperm. apply NoDup_cons. split; [|done].
      intros Hin. apply list_elem_of_fmap in Hin as (e & Heq & He).
      apply (Hcov e He). by rewrite Heq.
    + intros d Hd. rewrite Hperm in Hd. apply elem_of_cons in Hd as [->|Hd].
      * intros Hempty. apply Hexact. rewrite Hempty. apply empty_subseteq.
      * by apply Hnonempty.
  - unfold no_repeat. rewrite (resident_sets_delete s s' iter Hq). split.
    + eapply sublist_NoDup; [done | apply sublist_delete].
    + intros d Hd. apply Hnonempty.
      eapply elem_of_sublist; [done | apply sublist_delete].
Qed.

(** C4, as the code has it. From any state with an empty queue, after any
    sequence of calls (insertions and verifications among them), no two
    resident entries have the same dependency set and no resident entry has
    the empty dependency set; and a further call either leaves the queue
    and the exact set as they are, or enqueues one entry whose set is, at
    that moment, a subset neither of the exact set nor of any resident set,
    or promotes one resident entry, removing it and merging its set into
    the exact set. *)
Theorem queue_never_repeats {keeps_all : RehashKeeps env} (s0 : Runtime B)
    (calls : list Call) (c : Call) :
  g_delay_constraint_queue s0 = [] →
  no_repeat (run calls s0)
  ∧ queue_step (run calls s0) (exec c (run calls s0)).2.
Proof.
  intros Hempty. split; [|apply exec_queue_step]. apply run_invariant.
  - intros s s'. apply queue_step_no_repeat.
  - unfold no_repeat, resident_sets. rewrite Hempty. split; [constructor|].
    intros d Hd. by apply elem_of_nil in Hd.
Qed.

(** ** The registry in every reachable state *)

Lemma verify_loop_registry_step (br_dep : DependencySet) (iter : nat)
    (rest : list QueueEntry) :
  steps registry_step (verify_loop br_dep iter rest).
Proof.
  revert iter. induction rest as [|[key [addr_sym addr_con]] rest IH]; intros iter; simpl.
  - apply steps_ret, _.
  - destruct (negb _); [apply IH|]. unfold_entry_points. steps_tac.
Qed.

Lemma exec_registry_step (c : Call) : steps registry_step (exec c).
Proof.
  destruct c; cbv [exec]; unfold returning; (apply steps_bind; [apply _ | |steps_tac]).
  1: { intros s. apply registry_step_same. unfold _sym_initialize.
       by repeat case_match. }
  all: unfold _sym_asan_constraint_verify; unfold_entry_points; steps_tac.
  apply verify_loop_registry_step.
Qed.

Lemma run_registry_step (calls : list Call) (s : Runtime B) :
  registry_step s (run calls s).
Proof.
  revert s. induction calls as [|c calls IH]; intros s; [reflexivity|].
  rewrite run_cons. etrans; [apply exec_registry_step | apply IH].
Qed.

(** X8. In every state the program can reach, each registry entry is filed
    under the pointer its handle holds. *)
Lemma reachable_registry_wf (calls : list Call) :
  registry_wf (run calls initial_runtime).
Proof.
  intros k r Hk.
  by destruct (run_registry_step calls initial_runtime k r Hk) as [Hinit|[-> _]].
Qed.

(** X9. With a builder that never answers null, null is never registered. *)
Lemma reachable_null_unregistered (calls : list Call) :
  (∀ c b, get (build c b).1 ≠ nullptr) →
  allocatedExpressions (run calls initial_runtime) !! nullptr = None.
Proof.
  intros Hnonnull.
  destruct (allocatedExpressions (run calls initial_runtime) !! nullptr) as [r|] eqn:Hk;
    [|done].
  destruct (run_registry_step calls initial_runtime _ r Hk) as [Hinit|[Hget (c & b & ->)]];
    [done|]. by destruct (Hnonnull c b).
Qed.

(** ** The exactness query *)

(** C6, as the code has it. For a node (a non-null expression), the query
    returns without changing the state, and its answer is true exactly when
    the exact dependency set is non-empty and the node's dependency set is a
    subset of it; with an empty exact dependency set the answer is false
    whatever the node. *)
Theorem is_symexpr_exact_spec (s : Runtime B) (expr : SymExpr) :
  expr ≠ nullptr →
  ∃ answer, _sym_asan_is_symexpr_exact expr s = (Ret answer, s)
    ∧ (answer = true ↔
       g_exact_dependencies s ≠ ∅
       ∧ deref (getDependencies expr) ⊆ g_exact_dependencies s).
Proof.
  intros Hnode. unfold _sym_asan_is_symexpr_exact. unfold_M.
  destruct (decide (g_exact_dependencies s = ∅)) as [Hempty|Hnonempty].
  - exists false. split; [done|]. split; [done|]. by intros [? _].
  - rewrite decide_False by done. eexists. split; [done|].
    rewrite includes_subseteq. split; [by intros ?|by intros [_ ?]].
Qed.

(** ** The feasibility query *)

Lemma asserted_in_scope (sv : Solver) (z : Z3Expr) :
  asserted (with_scopes sv ([z] :: scopes sv)) = asserted sv ++ [z].
Proof.
  unfold asserted. simpl. rewrite reverse_cons, concat_app. simpl.
  by rewrite app_assoc.
Qed.

(** One query: the term of the simplified expression is asserted in a fresh
    scope and checked with what is already in force. *)
Lemma feasible_eq (s : Runtime B) (sv : Solver) (expr : SymExpr) :
  g_solver s = Some sv →
  expr ≠ nullptr →
  let z := simplified_toZ3Expr expr in
  _sym_feasible expr s =
  match z3_check (asserted sv ++ [z]) with
  | returns r => (Ret (bool_decide (r = sat)), s)
  | faults =>
      (Raise solver_fault, with_solver s (Some (with_scopes sv ([z] :: scopes sv))))
  end.
Proof.
  intros Hsv Hnode z. unfold _sym_feasible. rewrite decide_False by done.
  unfold_M. unfold solver, solver_push, solver_add, solver_check, solver_pop.
  fold z. destruct s as [? ? ? ? ? ? sv' ?]. simpl in Hsv. subst sv'.
  destruct sv as [inputs perm scs pcs svd]. simpl.
  change (asserted (with_scopes (with_scopes (mkSolver inputs perm scs pcs svd) ([] :: scs))
                      ([z] :: scs)))
    with (asserted (with_scopes (mkSolver inputs perm scs pcs svd)
                      ([z] :: scopes (mkSolver inputs perm scs pcs svd)))).
  rewrite asserted_in_scope.
  by destruct (z3_check _).
Qed.

(** C7, as the code has it. With a solver in place and for non-null
    expressions: a query whose check returns pushes a scope, asserts the
    simplified expression, checks, pops, and answers whether the result was
    [sat], leaving the whole state as it was, so any number of such queries
    leave the permanent assertions and the open scopes unchanged; a query
    whose check raises passes the fault on with the pushed scope, holding
    the assertion, still open. *)
Theorem feasible_scoped (s : Runtime B) (sv : Solver) (exprs : list SymExpr) :
  g_solver s = Some sv →
  (∀ e, e ∈ exprs → e ≠ nullptr) →
  ((∀ e, e ∈ exprs →
      ∃ r, z3_check (asserted sv ++ [simplified_toZ3Expr e]) = returns r) →
   run (feasible <$> exprs) s = s
   ∧ ∀ e, e ∈ exprs →
       ∃ r, z3_check (asserted sv ++ [simplified_toZ3Expr e]) = returns r
            ∧ _sym_feasible e s = (Ret (bool_decide (r = sat)), s))
  ∧ (∀ e, e ∈ exprs →
       z3_check (asserted sv ++ [simplified_toZ3Expr e]) = faults →
       _sym_feasible e s =
       (Raise solver_fault,
        with_solver s
          (Some (with_scopes sv ([simplified_toZ3Expr e] :: scopes sv))))).
Proof.
  intros Hsv Hnodes. split.
  - intros Hreturns. split.
    + induction exprs as [|e exprs IH]; [done|].
      rewrite fmap_cons, run_cons. cbv [exec]. unfold returning. unfold_M.
      destruct (Hreturns e) as [r Hr]; [by left|].
      rewrite (feasible_eq s sv e Hsv); [|apply Hnodes; by left].
      rewrite Hr. simpl. apply IH.
      * intros e' He'. apply Hnodes. by right.
      * intros e' He'. apply Hreturns. by right.
    + intros e He. destruct (Hreturns e He) as [r Hr]. exists r. split; [done|].
      rewrite (feasible_eq s sv e Hsv); [|by apply Hnodes]. by rewrite Hr.
  - intros e He Hfault.
    rewrite (feasible_eq s sv e Hsv); [|by apply Hnodes]. by rewrite Hfault.
Qed.

(** ** Garbage collection *)

(** C8. Below the configured threshold the collection changes nothing. At
    or above it, only the registry changes, and afterwards a lookup succeeds
    exactly for the previously registered identities that are in the
    reachable set, with the handle they had: every registered reachable
    expression is still there, every other one is gone. *)
Theorem collect_garbage_spec (s : Runtime B) (reachableExpressions : gset SymExpr) :
  ∃ s', _sym_collect_garbage reachableExpressions s = (Ret tt, s')
    ∧ (N.of_nat (size (allocatedExpressions s)) < garbageCollectionThreshold g_config
       → s' = s)
    ∧ (garbageCollectionThreshold g_config ≤ N.of_nat (size (allocatedExpressions s))
       → s' = with_allocatedExpressions s (allocatedExpressions s')
         ∧ ∀ e, allocatedExpressions s' !! e =
                if decide (e ∈ reachableExpressions)
                then allocatedExpressions s !! e
                else None).
Proof.
  unfold _sym_collect_garbage. unfold_M. case_decide as Hsize.
  - exists s. split; [done|]. split; [done|]. intros Hle. lia.
  - eexists. split; [done|]. split; [intros Hlt; lia|]. intros _. simpl.
    split; [done|]. intros e.
    destruct (allocatedExpressions s !! e) as [r|] eqn:He.
    + case_decide as Hreach.
      * apply map_lookup_filter_Some. done.
      * apply map_lookup_filter_None. right. intros r' _. done.
    + case_decide; apply map_lookup_filter_None; by left.
Qed.

(** ** The test-case handler *)

Lemma verify_loop_keeps_handler (br_dep : DependencySet) (iter : nat)
    (rest : list QueueEntry) :
  keeps g_test_case_handler (verify_loop br_dep iter rest).
Proof.
  unfold keeps. revert iter.
  induction rest as [|[key [addr_sym addr_con]] rest IH]; intros iter; simpl.
  - apply steps_ret, _.
  - destruct (negb _); [apply IH|]. unfold_entry_points. steps_tac.
Qed.

(** Registration apart, no entry point assigns the handler. *)
Lemma exec_keeps_handler (c : Call) :
  (∀ handler, c ≠ set_test_case_handler handler) →
  keeps g_test_case_handler (exec c).
Proof.
  intros Hc. unfold keeps.
  destruct c; try (by destruct (Hc handler)); cbv [exec]; unfold returning;
    (apply steps_bind; [apply _ | |steps_tac]).
  1: { intros s. unfold same, _sym_initialize. by repeat case_match. }
  all: unfold _sym_asan_constraint_verify; unfold_entry_points; steps_tac.
  apply verify_loop_keeps_handler.
Qed.

Lemma run_handler (calls : list Call) (s : Runtime B) :
  g_test_case_handler (run calls s)
  = last_registration calls (g_test_case_handler s).
Proof.
  revert s. induction calls as [|c calls IH]; intros s; [done|].
  rewrite run_cons, IH. pose proof (exec_keeps_handler c) as Hkeeps.
  destruct c; simpl last_registration; try reflexivity.
  all: f_equal; by refine (Hkeeps _ s).
Qed.

Lemma last_registration_none (calls : list Call) (handler : TestCaseHandler) :
  Forall (λ c, ∀ h, c ≠ set_test_case_handler h) calls →
  last_registration calls handler = handler.
Proof.
  induction 1 as [|c calls Hc _ IH]; [done|].
  destruct c; simpl; try done. by destruct (Hc handler0).
Qed.

Lemma last_registration_app (before after : list Call) (handler : TestCaseHandler) :
  last_registration (before ++ after) handler
  = last_registration after (last_registration before handler).
Proof.
  revert handler. induction before as [|c before IH]; intros handler; [done|].
  destruct c; simpl; apply IH.
Qed.

(** C9, as the code has it. No handler is registered when the program
    starts; a registration call stores the handler it is given, whatever was
    registered before, and no other entry point assigns the handler. So after
    any sequence of calls the handler in force is the one given by the last
    registration among them (the one in force before them when there is
    none), and when the solver saves values it consults that handler,
    falling back to QSYM's default when it is null. *)
Theorem test_case_handler_last_wins (calls : list Call) (s : Runtime B)
    (suffix : string) :
  g_test_case_handler (initial_runtime (B := B)) = nullptr
  ∧ (∀ handler,
       symcc_set_test_case_handler handler s = (Ret tt, with_handler s handler))
  ∧ (Forall (λ c, ∀ h, c ≠ set_test_case_handler h) calls →
     last_registration calls (g_test_case_handler s) = g_test_case_handler s)
  ∧ (∀ before handler after,
       calls = before ++ set_test_case_handler handler :: after →
       Forall (λ c, ∀ h, c ≠ set_test_case_handler h) after →
       last_registration calls (g_test_case_handler s) = handler)
  ∧ let s' := run calls s in
    let handler := last_registration calls (g_test_case_handler s) in
    g_test_case_handler s' = handler
    ∧ ∀ sv, g_solver s' = Some sv →
        saveValues suffix s' =
        (Ret tt,
         with_solver s'
           (Some (with_saved sv
                    (saved sv ++
                     [if decide (handler ≠ nullptr)
                      then handled handler (getConcreteValues sv)
                      else written suffix])))).
Proof.
  split; [done|]. split; [done|].
  split; [apply last_registration_none|]. split.
  { intros before handler after -> Hafter.
    rewrite last_registration_app. simpl. by apply last_registration_none. }
  intros s' handler. assert (g_test_case_handler s' = handler) as Hhandler
    by apply run_handler.
  split; [done|]. intros sv Hsv.
  unfold saveValues. unfold_M. rewrite Hhandler.
  case_decide; unfold solver; simpl; by rewrite Hsv.
Qed.

(** ** Null operands *)

(** C10. On a null operand the four guarded constructors (sign extension,
    zero extension, truncation, boolean to bit) return null and leave the
    state alone, in every state, so without a registry lookup. A binary
    operator looks both operands up whatever they are, and aborts with
    [std::out_of_range], the state unchanged, as soon as one is not
    registered. Where null is not a registered identity, every other
    constructor that takes operands and builds something (each binary
    operator, negation, complement, if-then-else, concatenation, extraction)
    aborts in that way on a null operand; the floating-point stubs build
    nothing. *)
Theorem null_operand_guards (s : Runtime B) :
  (∀ bits, _sym_build_sext nullptr bits s = (Ret nullptr, s))
  ∧ (∀ bits, _sym_build_zext nullptr bits s = (Ret nullptr, s))
  ∧ (∀ bits, _sym_build_trunc nullptr bits s = (Ret nullptr, s))
  ∧ _sym_build_bool_to_bit nullptr s = (Ret nullptr, s)
  ∧ (∀ name a b,
       allocatedExpressions s !! a = None ∨ allocatedExpressions s !! b = None →
       DEF_BINARY_EXPR_BUILDER name a b s = (Raise out_of_range, s))
  ∧ (allocatedExpressions s !! nullptr = None →
     (∀ name b, DEF_BINARY_EXPR_BUILDER name nullptr b s = (Raise out_of_range, s))
     ∧ (∀ name a, DEF_BINARY_EXPR_BUILDER name a nullptr s = (Raise out_of_range, s))
     ∧ _sym_build_neg nullptr s = (Raise out_of_range, s)
     ∧ _sym_build_not nullptr s = (Raise out_of_range, s)
     ∧ (∀ a b, _sym_build_ite nullptr a b s = (Raise out_of_range, s))
     ∧ (∀ c b, _sym_build_ite c nullptr b s = (Raise out_of_range, s))
     ∧ (∀ c a, _sym_build_ite c a nullptr s = (Raise out_of_range, s))
     ∧ (∀ b, _sym_concat_helper nullptr b s = (Raise out_of_range, s))
     ∧ (∀ a, _sym_concat_helper a nullptr s = (Raise out_of_range, s))
     ∧ (∀ first_bit last_bit,
          _sym_extract_helper nullptr first_bit last_bit s = (Raise out_of_range, s))).
Proof.
  repeat split; try done.
  all: intros; unfold DEF_BINARY_EXPR_BUILDER, _sym_build_neg, _sym_build_not,
         _sym_build_ite, _sym_concat_helper, _sym_extract_helper, at_; unfold_M.
  all: repeat match goal with
         | H : _ ∨ _ |- _ => destruct H
         | H : allocatedExpressions _ !! _ = None |- _ => rewrite H
         | |- context [allocatedExpressions ?st !! ?k] =>
             destruct (allocatedExpressions st !! k)
         end; done.
Qed.

(** * Further properties of the entry points *)

(** ** Registration *)

(** X1. Registering a handle returns the pointer it holds. If that pointer was
    already registered nothing changes (the first handle stays); otherwise
    the handle is filed under it. Either way a lookup of the pointer then
    succeeds, every other lookup answers as before, and only the registry
    may have changed. *)
Theorem registerExpression_spec (expr : ExprRef) (s : Runtime B) :
  ∃ s', registerExpression expr s = (Ret (get expr), s')
    ∧ (is_Some (allocatedExpressions s !! get expr) → s' = s)
    ∧ (allocatedExpressions s !! get expr = None →
       allocatedExpressions s' !! get expr = Some expr)
    ∧ is_Some (allocatedExpressions s' !! get expr)
    ∧ (∀ k, k ≠ get expr → allocatedExpressions s' !! k = allocatedExpressions s !! k)
    ∧ s' = with_allocatedExpressions s (allocatedExpressions s').
Proof.
  unfold registerExpression.
  destruct (allocatedExpressions s !! get expr) as [r|] eqn:Hold.
  - exists s. split; [done|]. split; [done|]. split; [done|].
    split; [by rewrite Hold|]. split; [done|]. by destruct s.
  - eexists. split; [done|]. simpl. split; [by intros [? ?]|].
    split; [intros _; apply lookup_insert_eq|].
    split; [rewrite lookup_insert_eq; by eexists|].
    split; [|done]. intros k Hk. by rewrite lookup_insert_ne.
Qed.

(** ** The input buffer *)

Lemma pushInputByte_eq (offset value : N) (sv : Solver) :
  offset + 1 < 2 ^ (8 * sizeof_uintptr_t) →
  pushInputByte offset value sv
  = (Ret tt,
     with_inputs sv
       (<[N.to_nat offset := value]>
          (if decide (N.of_nat (length (inputs_ sv)) ≤ offset)
           then resize (S (N.to_nat offset)) 0 (inputs_ sv)
           else inputs_ sv))).
Proof.
  intros Hfits. unfold pushInputByte. rewrite N.mod_small by done.
  replace (N.to_nat (offset + 1)) with (S (N.to_nat offset)) by lia.
  destruct (decide (N.of_nat (length (inputs_ sv)) ≤ offset)) as [Hgrow|Hgrow].
  - rewrite decide_True; [done|]. rewrite length_resize. lia.
  - rewrite decide_True; [done|]. lia.
Qed.

Lemma pushInputByte_lookup (offset value : N) (sv : Solver) :
  offset + 1 < 2 ^ (8 * sizeof_uintptr_t) →
  inputs_ (pushInputByte offset value sv).2 !! N.to_nat offset = Some value.
Proof.
  intros Hfits. rewrite pushInputByte_eq by done. simpl.
  apply list_lookup_insert_eq.
  case_decide; [rewrite length_resize|]; lia.
Qed.

(** X2. Pushing an input byte at an offset below the largest [size_t] stores
    the value at its offset, grows the buffer just enough to hold that
    offset, keeps every other byte already there, fills the gap with zeros,
    and touches nothing else of the solver. At the largest [size_t],
    [offset + 1] wraps to 0: the buffer is emptied and the store falls
    outside it. *)
Theorem pushInputByte_spec (offset value : N) (sv : Solver) :
  let old := inputs_ sv in
  (offset + 1 < 2 ^ (8 * sizeof_uintptr_t) →
   ∃ sv', pushInputByte offset value sv = (Ret tt, sv')
     ∧ inputs_ sv' !! N.to_nat offset = Some value
     ∧ length (inputs_ sv') = (length old `max` S (N.to_nat offset))%nat
     ∧ (∀ i, i ≠ N.to_nat offset → (i < length old)%nat →
             inputs_ sv' !! i = old !! i)
     ∧ (∀ i, i ≠ N.to_nat offset → (length old ≤ i)%nat →
             (i < length (inputs_ sv'))%nat → inputs_ sv' !! i = Some 0)
     ∧ sv' = with_inputs sv (inputs_ sv'))
  ∧ (offset + 1 = 2 ^ (8 * sizeof_uintptr_t) →
     N.of_nat (length old) ≤ offset →
     pushInputByte offset value sv = (Raise out_of_bounds, with_inputs sv [])).
Proof.
  intros old. split.
  - intros Hfits. rewrite pushInputByte_eq by done. fold old.
    eexists. split; [done|]. simpl.
    case_decide as Hgrow.
    + assert (length old ≤ N.to_nat offset)%nat as Hle by lia.
      repeat split.
      * apply list_lookup_insert_eq. rewrite length_resize. lia.
      * rewrite length_insert, length_resize. lia.
      * intros i Hi Hlt. rewrite list_lookup_insert_ne by done.
        apply lookup_resize; lia.
      * intros i Hi Hge Hlt. rewrite length_insert, length_resize in Hlt.
        rewrite list_lookup_insert_ne by done. apply lookup_resize_new; lia.
    + assert (N.to_nat offset < length old)%nat as Hlt by lia.
      repeat split.
      * by apply list_lookup_insert_eq.
      * rewrite length_insert. lia.
      * intros i Hi _. by rewrite list_lookup_insert_ne.
      * intros i _ Hge Hlti. rewrite length_insert in Hlti. lia.
  - intros Hwraps Hgrow. unfold pushInputByte. fold old.
    destruct (decide (N.of_nat (length old) ≤ offset)) as [_|Hno]; [|done].
    rewrite Hwraps, N.Div0.mod_same. change (N.to_nat 0) with 0%nat.
    rewrite resize_0. by rewrite decide_False by (simpl; lia).
Qed.

Lemma solver_eq {A} (s : Runtime B) (sv : Solver) (f : Solver → Outcome A * Solver) :
  g_solver s = Some sv →
  solver f s = ((f sv).1, with_solver s (Some (f sv).2)).
Proof. intros Hsv. unfold solver. rewrite Hsv. by destruct (f sv). Qed.

(** X3. Reading a symbolic input byte at an offset below the largest
    [size_t], with solver and builder in place: the solver's buffer then
    holds the concrete value at that offset, the builder has been asked for
    a read of that offset, and the identity returned is the answer's,
    registered. *)
Theorem get_input_byte_records_value (s : Runtime B) (sv : Solver) (b : B)
    (offset value : N) :
  g_solver s = Some sv →
  g_expr_builder s = Some b →
  offset + 1 < 2 ^ (8 * sizeof_uintptr_t) →
  let r := build (createRead offset) b in
  ∃ s', _sym_get_input_byte offset value s = (Ret (get r.1), s')
    ∧ pushInputByte offset value sv = (Ret tt, (pushInputByte offset value sv).2)
    ∧ g_solver s' = Some (pushInputByte offset value sv).2
    ∧ (∀ sv', g_solver s' = Some sv' → inputs_ sv' !! N.to_nat offset = Some value)
    ∧ g_expr_builder s' = Some r.2
    ∧ is_Some (allocatedExpressions s' !! get r.1).
Proof.
  intros Hsv Hb Hfits r. unfold _sym_get_input_byte. unfold_M.
  rewrite (solver_eq s sv _ Hsv).
  pose proof (pushInputByte_lookup offset value sv Hfits) as Hstored.
  pose proof (pushInputByte_eq offset value sv Hfits) as Hpush.
  destruct (pushInputByte offset value sv) as [out sv1] eqn:Hout.
  injection Hpush as -> Hsv1. simpl in *.
  rewrite (builder_eq _ (createRead offset) b) by done. fold r. simpl.
  rewrite registerExpression_eq. eexists. split; [done|]. split; [done|].
  destruct (registered_fields r.1
              (with_builder (with_solver s (Some sv1)) (Some r.2)))
    as (_ & _ & Hbuilder & Hsolver).
  rewrite Hsolver, Hbuilder. simpl. repeat split.
  - by intros sv' [= <-].
  - unfold registered, registerExpression. simpl.
    destruct (allocatedExpressions s !! get r.1) eqn:Hold; simpl.
    + rewrite Hold. by eexists.
    + rewrite lookup_insert_eq. by eexists.
Qed.

(** ** Initialization *)

(** X4. Initialization is a latch: whatever the first call did (set up solver
    and builder, stopped at the concrete-execution notice, or ended the
    process for want of an output directory), it has set the flag, and a
    second call changes nothing. A call in concrete-execution mode, or one
    that ends the process, changes nothing but the flag. *)
Theorem initialize_is_a_latch (s : Runtime B) :
  let s1 := (_sym_initialize s).2 in
  g_initialized s1 = true
  ∧ _sym_initialize s1 = (Ret tt, s1)
  ∧ (g_initialized s = true → _sym_initialize s = (Ret tt, s))
  ∧ (input_is_NoInput g_config = true ∨ outputDir_is_directory g_config = false →
     g_initialized s = false → s1 = with_initialized s true).
Proof.
  unfold _sym_initialize.
  destruct (g_initialized s) eqn:Hflag; simpl.
  - rewrite Hflag. repeat split; try done.
  - destruct (input_is_NoInput g_config); simpl.
    + repeat split; try done.
    + destruct (outputDir_is_directory g_config); simpl;
        repeat split; try done. by intros [|].
Qed.

(** ** Finer steps *)

#[local] Instance registry_grows_reflexive : Reflexive (registry_grows (B := B)).
Proof. by intros s k r Hk. Qed.

#[local] Instance registry_grows_transitive : Transitive (registry_grows (B := B)).
Proof. intros s1 s2 s3 H12 H23 k r Hk. by apply H23, H12. Qed.

Section FinerSteps.

Context (R : relation (Runtime B)) `{!Reflexive R, !Transitive R}.

Lemma steps_builder_some (c : BuilderCall) :
  (∀ s b, R s (with_builder s (Some b))) → steps R (builder c).
Proof.
  intros H s. unfold builder. destruct (g_expr_builder s); [|simpl; reflexivity].
  destruct (build c b); simpl. apply H.
Qed.

Lemma steps_solver_at {A} (g : Solver → Outcome A * Solver) :
  (∀ s sv, g_solver s = Some sv → R s (with_solver s (Some (g sv).2))) →
  steps R (solver g).
Proof.
  intros H s. unfold solver. destruct (g_solver s) as [sv|] eqn:Hsv; [|simpl; reflexivity].
  specialize (H s sv Hsv). by destruct (g sv).
Qed.

(** A registration that happens files an answer of the builder under a
    pointer that was free. *)
Lemma steps_build_register_fresh (c : BuilderCall) :
  (∀ s b, R s (with_builder s (Some b))) →
  (∀ s b, allocatedExpressions s !! get (build c b).1 = None →
          R s (with_allocatedExpressions s
                 (<[get (build c b).1 := (build c b).1]> (allocatedExpressions s)))) →
  steps R (e ← builder c; registerExpression e).
Proof.
  intros Hbuilder Hregister s. unfold_M. unfold builder.
  destruct (g_expr_builder s) as [b|]; [|simpl; reflexivity].
  pose proof (Hregister (with_builder s (Some (build c b).2)) b) as Hreg.
  destruct (build c b) as [e b']; simpl in *. unfold registerExpression. simpl.
  destruct (allocatedExpressions s !! get e); simpl.
  - apply Hbuilder.
  - etrans; [apply (Hbuilder s b') | by apply Hreg].
Qed.

End FinerSteps.

(** Splits an entry point into its primitive steps, leaving what each step
    does to the state to [side]. *)
Ltac finer_steps side :=
  repeat first
    [ apply steps_ret; apply _ | apply steps_raise; apply _
    | apply steps_gets; apply _ | apply steps_at; apply _
    | apply steps_build_register_fresh; [apply _ | apply _ | side | side]
    | apply steps_bind; [apply _ | |intros ?]
    | apply steps_builder_some; [apply _ | side]
    | apply steps_solver_at; [apply _ | side]
    | apply steps_modify; side
    | case_decide
    | case_match ].

(** ** Only the collector removes registry entries *)

Lemma registry_grows_same (s s' : Runtime B) :
  allocatedExpressions s' = allocatedExpressions s → registry_grows s s'.
Proof. intros Heq k r Hk. by rewrite Heq. Qed.

Lemma registry_grows_fresh (s : Runtime B) (e : ExprRef) :
  allocatedExpressions s !! get e = None →
  registry_grows s (with_allocatedExpressions s (<[get e := e]> (allocatedExpressions s))).
Proof.
  intros Hfree k r Hk. simpl. rewrite lookup_insert_ne; [done|].
  intros <-. congruence.
Qed.

Ltac registry_grows_side :=
  intros;
  first [ by apply registry_grows_fresh
        | apply registry_grows_same; reflexivity ].

Lemma verify_loop_registry_grows (br_dep : DependencySet) (iter : nat)
    (rest : list QueueEntry) :
  steps registry_grows (verify_loop br_dep iter rest).
Proof.
  revert iter. induction rest as [|[key [addr_sym addr_con]] rest IH]; intros iter; simpl.
  - apply steps_ret, _.
  - destruct (negb _); [apply IH|]. unfold_entry_points.
    finer_steps registry_grows_side.
Qed.

Lemma exec_registry_grows (c : Call) :
  (∀ reachable, c ≠ collect_garbage reachable) →
  steps registry_grows (exec c).
Proof.
  intros Hc.
  destruct c; cbv [exec]; unfold returning;
    (apply steps_bind; [apply _ | |finer_steps registry_grows_side]).
  1: { intros s. apply registry_grows_same. unfold _sym_initialize.
       by repeat case_match. }
  all: try by destruct (Hc reachableExpressions).
  all: unfold _sym_asan_constraint_verify; unfold_entry_points;
    finer_steps registry_grows_side.
  apply verify_loop_registry_grows.
Qed.

(** X7. Between collections the registry only grows: after any sequence of
    calls none of which is a garbage collection, every identity that was
    registered is still registered, with the handle it had. *)
Theorem registry_kept_between_collections (calls : list Call) (s : Runtime B)
    (k : SymExpr) (r : ExprRef) :
  (∀ c, c ∈ calls → ∀ reachable, c ≠ collect_garbage reachable) →
  allocatedExpressions s !! k = Some r →
  allocatedExpressions (run calls s) !! k = Some r.
Proof.
  revert s. induction calls as [|c calls IH]; intros s Hcalls Hk; [done|].
  rewrite run_cons. apply IH.
  - intros c' Hc'. apply Hcalls. by right.
  - apply (exec_registry_grows c); [|done]. apply Hcalls. by left.
Qed.

(** ** Identities handed out are registered *)

Lemma returns_registered_bind {A} (m : M B A) (g : A → M B SymExpr) :
  (∀ a, returns_registered (g a)) → returns_registered (m ≫= g).
Proof.
  intros Hg s e s'. unfold_M. destruct (m s) as [[a|err] s1]; [|done]. apply Hg.
Qed.

Lemma returns_registered_register (expr : ExprRef) :
  returns_registered (B := B) (registerExpression expr).
Proof.
  intros s e s' Hrun _. unfold registerExpression in Hrun.
  destruct (allocatedExpressions s !! get expr) as [r|] eqn:Hold;
    injection Hrun as <- <-; simpl.
  - rewrite Hold. by eexists.
  - rewrite lookup_insert_eq. by eexists.
Qed.

Lemma returns_registered_null : returns_registered (mret nullptr : M B SymExpr).
Proof. intros s e s' [= <- <-] Hnull. done. Qed.

Ltac returns_registered_steps :=
  repeat first
    [ apply returns_registered_register
    | apply returns_registered_null
    | apply returns_registered_bind; intros ?
    | case_decide ].

(** X6. Whatever entry point hands a non-null identity back to the instrumented
    program has registered it: a lookup of that identity succeeds in the
    state the call leaves. *)
Theorem returned_identity_is_registered (c : Call) (s : Runtime B) (e : SymExpr) :
  (exec c s).1 = Ret (VExpr e) →
  e ≠ nullptr →
  is_Some (allocatedExpressions (exec c s).2 !! e).
Proof.
  assert (∀ m : M B SymExpr, returns_registered m →
            (returning VExpr m s).1 = Ret (VExpr e) → e ≠ nullptr →
            is_Some (allocatedExpressions (returning VExpr m s).2 !! e)) as Hexpr.
  { intros m Hm. unfold returning. unfold_M. specialize (Hm s).
    destruct (m s) as [[e'|err] s']; simpl; [|done].
    intros [= ->]. by apply Hm. }
  assert (∀ {A} (wrap : A → Value) (m : M B A),
            (∀ a, wrap a ≠ VExpr e) → (returning wrap m s).1 ≠ Ret (VExpr e)) as Hother.
  { intros A wrap m Hwrap. unfold returning. unfold_M.
    destruct (m s) as [[a|err] s']; simpl; [|done]. intros [= Heq]. by apply (Hwrap a). }
  destruct c; cbv [exec]; try (apply Hexpr; unfold_entry_points; returns_registered_steps).
  all: intros Hret; exfalso; revert Hret; by apply Hother.
Qed.

(** ** After initialization nothing is taken back *)

#[local] Instance carries_on_reflexive : Reflexive (carries_on (B := B)).
Proof. by intros s Hinit. Qed.

#[local] Instance carries_on_transitive : Transitive (carries_on (B := B)).
Proof.
  intros s1 s2 s3 H12 H23 Hinit.
  destruct (H12 Hinit) as (Hinit2 & Hb12 & Hsv12).
  destruct (H23 Hinit2) as (Hinit3 & Hb23 & Hsv23).
  split; [done|]. split; auto.
Qed.

Lemma carries_on_same (s s' : Runtime B) :
  g_initialized s' = g_initialized s →
  g_expr_builder s' = g_expr_builder s →
  g_solver s' = g_solver s →
  carries_on s s'.
Proof. intros Hi Hb Hsv Hinit. by rewrite Hi, Hb, Hsv. Qed.

Lemma carries_on_builder (s : Runtime B) (b : B) :
  carries_on s (with_builder s (Some b)).
Proof. intros Hinit. simpl. split; [done|]. split; [by eexists|done]. Qed.

Lemma carries_on_solver (s : Runtime B) (sv : Solver) :
  carries_on s (with_solver s (Some sv)).
Proof. intros Hinit. simpl. split; [done|]. split; [done|by eexists]. Qed.

Ltac carries_on_side :=
  intros;
  first [ apply carries_on_builder
        | apply carries_on_solver
        | apply carries_on_same; reflexivity ].

Lemma verify_loop_carries_on (br_dep : DependencySet) (iter : nat)
    (rest : list QueueEntry) :
  steps carries_on (verify_loop br_dep iter rest).
Proof.
  revert iter. induction rest as [|[key [addr_sym addr_con]] rest IH]; intros iter; simpl.
  - apply steps_ret, _.
  - destruct (negb _); [apply IH|]. unfold_entry_points.
    finer_steps carries_on_side.
Qed.

Lemma exec_carries_on (c : Call) : steps carries_on (exec c).
Proof.
  destruct c; cbv [exec]; unfold returning;
    (apply steps_bind; [apply _ | |finer_steps carries_on_side]).
  1: { intros s Hinit. unfold _sym_initialize. rewrite Hinit.
       by apply carries_on_reflexive. }
  all: unfold _sym_asan_constraint_verify; unfold_entry_points;
    finer_steps carries_on_side.
  apply verify_loop_carries_on.
Qed.

(** X5. Once the runtime is initialized, no sequence of calls takes that
    back: the flag stays set, a builder pointer that was set is still set,
    and a solver pointer that was set is still set. *)
Theorem initialized_runtime_carries_on (calls : list Call) (s : Runtime B) :
  g_initialized s = true →
  g_initialized (run calls s) = true
  ∧ (is_Some (g_expr_builder s) → is_Some (g_expr_builder (run calls s)))
  ∧ (is_Some (g_solver s) → is_Some (g_solver (run calls s))).
Proof.
  assert (carries_on s (run calls s)) as Hcarries.
  { revert s. induction calls as [|c calls IH]; intros s; [reflexivity|].
    rewrite run_cons. etrans; [apply exec_carries_on | apply IH]. }
  apply Hcarries.
Qed.

(** ** Exactness lasts *)

Lemma run_exact_subseteq (calls : list Call) (s : Runtime B) :
  g_exact_dependencies s ⊆ g_exact_dependencies (run calls s).
Proof.
  revert s. induction calls as [|c calls IH]; intros s; [done|].
  rewrite run_cons. etrans; [|apply IH].
  apply queue_step_exact_grows, exec_queue_step.
Qed.

Lemma is_symexpr_exact_true (s : Runtime B) (expr : SymExpr) :
  _sym_asan_is_symexpr_exact expr s = (Ret true, s)
  ↔ g_exact_dependencies s ≠ ∅ ∧ expr ≠ nullptr
    ∧ deref (getDependencies expr) ⊆ g_exact_dependencies s.
Proof.
  unfold _sym_asan_is_symexpr_exact. unfold_M.
  destruct (decide (g_exact_dependencies s = ∅)) as [Hempty|Hnonempty].
  { split; [done|]. by intros [? _]. }
  destruct (decide (expr = nullptr)) as [Hnull|Hnode].
  { split; [done|]. by intros (_ & ? & _). }
  split.
  - intros [= Hinc]. by apply includes_subseteq in Hinc.
  - intros (_ & _ & Hsub). apply includes_subseteq in Hsub. by rewrite Hsub.
Qed.

(** X10. A node the exactness query has once answered true for is answered true
    for after any further sequence of calls; and as long as it is still
    registered, an insertion for it is dropped, leaving the state as it
    is. *)
Theorem exactness_lasts (s : Runtime B) (expr : SymExpr) (calls : list Call) :
  _sym_asan_is_symexpr_exact expr s = (Ret true, s) →
  let s' := run calls s in
  _sym_asan_is_symexpr_exact expr s' = (Ret true, s')
  ∧ ∀ addr concrete_addr,
      is_Some (allocatedExpressions s' !! expr) →
      registry_wf s' →
      _sym_asan_insert_symbolic_addr_node expr addr concrete_addr s' = (Ret tt, s').
Proof.
  intros Hexact s'. apply is_symexpr_exact_true in Hexact as (Hnonempty & Hnode & Hsub).
  pose proof (run_exact_subseteq calls s) as Hgrow. fold s' in Hgrow.
  assert (deref (getDependencies expr) ⊆ g_exact_dependencies s') as Hsub'
    by (by etrans).
  split.
  - apply is_symexpr_exact_true. split; [|done].
    intros Hempty. apply Hnonempty. apply leibniz_equiv, equiv_empty.
    by rewrite <- Hempty.
  - intros addr concrete_addr [node Hlookup] Hwf.
    rewrite (insert_symbolic_addr_node_eq s' expr addr concrete_addr node Hlookup).
    rewrite (Hwf _ _ Hlookup).
    apply includes_subseteq in Hsub'. by rewrite Hsub'.
Qed.

(** ** A promotion whose address expression is gone *)


(** ** Rendering an expression *)

Lemma substring_prefix (n : nat) (str : string) :
  String.length (String.substring 0 n str) = (String.length str `min` n)%nat
  ∧ ∃ rest, str = String.append (String.substring 0 n str) rest.
Proof.
  revert str. induction n as [|n IH]; intros str.
  - destruct str; simpl; (split; [lia|]); by eexists.
  - destruct str as [|ch str]; simpl.
    + split; [done|]. by exists EmptyString.
    + destruct (IH str) as [Hlen [rest Hrest]]. split; [by rewrite Hlen|].
      exists rest.
      change (String ch str = String ch (String.append (String.substring 0 n str) rest)).
      by f_equal.
Qed.

Lemma substring_all (n : nat) (str : string) :
  (String.length str ≤ n)%nat → String.substring 0 n str = str.
Proof.
  revert str. induction n as [|n IH]; intros [|ch str]; simpl; intros Hlen;
    try done; try lia.
  f_equal. apply IH. lia.
Qed.

(** X12. Rendering a node never overruns the 4096-byte buffer: the text
    returned is the start of the node's rendering, cut at 4095 characters,
    and the whole rendering when that is no longer; the state is not
    touched. *)
Theorem expr_to_string_is_bounded (s : Runtime B) (expr : SymExpr) :
  expr ≠ nullptr →
  ∃ text, _sym_expr_to_string expr s = (Ret text, s)
    ∧ String.length text = (String.length (toString expr) `min` 4095)%nat
    ∧ (String.length text < 4096)%nat
    ∧ (∃ rest, toString expr = String.append text rest)
    ∧ ((String.length (toString expr) ≤ 4095)%nat → text = toString expr).
Proof.
  intros Hnode. unfold _sym_expr_to_string. rewrite decide_False by done.
  eexists. split; [done|].
  destruct (substring_prefix 4095 (toString expr)) as [Hlen Hrest].
  split; [done|]. split; [lia|]. split; [done|]. apply substring_all.
Qed.

(** ** Collecting twice *)

(** X13. A collection only ever removes entries, and collecting again with the
    same reachable set changes nothing more. *)
Theorem collect_garbage_is_idempotent (s : Runtime B) (reachable : gset SymExpr) :
  let s1 := (_sym_collect_garbage reachable s).2 in
  _sym_collect_garbage reachable s1 = (Ret tt, s1)
  ∧ allocatedExpressions s1 ⊆ allocatedExpressions s
  ∧ (size (allocatedExpressions s1) ≤ size (allocatedExpressions s))%nat.
Proof.
  unfold _sym_collect_garbage. unfold_M.
  destruct (decide (N.of_nat (size (allocatedExpressions s))
                    < garbageCollectionThreshold g_config)) as [Hbelow|Habove]; simpl.
  - rewrite decide_True by done. done.
  - split; [|split].
    + case_decide; [done|]. f_equal. destruct s; simpl.
      unfold with_allocatedExpressions; simpl. f_equal.
      by rewrite map_filter_filter_l.
    + apply map_filter_subseteq.
    + apply map_subseteq_size, map_filter_subseteq.
Qed.

(** ** Submitting path constraints *)

(** X14. A null constraint is a concrete branch: neither variant records
    anything, whatever the state (even with no solver yet). A non-null
    identity that is not registered aborts with [std::out_of_range] and
    records nothing. A registered one is submitted once, with the direction
    reduced to whether [taken] is non-zero; the two variants differ only in
    the sanitizer flag they pass. *)
Theorem push_path_constraint_spec (s : Runtime B) (constraint : SymExpr)
    (taken : Z) (site_id : N) :
  (constraint = nullptr →
   _sym_push_path_constraint constraint taken site_id s = (Ret tt, s)
   ∧ _sym_asan_push_path_constraint constraint taken site_id s = (Ret tt, s))
  ∧ (constraint ≠ nullptr → allocatedExpressions s !! constraint = None →
     _sym_push_path_constraint constraint taken site_id s = (Raise out_of_range, s)
     ∧ _sym_asan_push_path_constraint constraint taken site_id s = (Raise out_of_range, s))
  ∧ (∀ e sv, constraint ≠ nullptr → allocatedExpressions s !! constraint = Some e →
       g_solver s = Some sv →
       let submitted flag :=
         with_solver s
           (Some (with_path_constraints sv
                    (path_constraints sv
                     ++ [mkJcc e (bool_decide (taken ≠ 0%Z)) site_id flag]))) in
       _sym_push_path_constraint constraint taken site_id s = (Ret tt, submitted false)
       ∧ _sym_asan_push_path_constraint constraint taken site_id s
         = (Ret tt, submitted true)).
Proof.
  unfold _sym_push_path_constraint, _sym_asan_push_path_constraint.
  split; [|split].
  - intros ->. by rewrite !decide_True.
  - intros Hnn Hgone. split; rewrite decide_False by done; unfold_M; unfold at_;
      by rewrite Hgone.
  - intros e sv Hnn He Hsv.
    split; rewrite decide_False by done; unfold_M;
      rewrite (at_eq s constraint e He); unfold addJcc, solver; by rewrite Hsv.
Qed.

(** ** The operator table *)


(** ** Integer constants *)

(** X16. The constant requested for a 64-bit value always carries the whole
    value: on a target with 64-bit pointers, and on a narrower target for a
    value that fits a pointer, through the builder's native interface;
    else as a 64-bit arbitrary-precision integer. The identity returned is
    the answer's. *)
Theorem build_integer_keeps_the_value (s : Runtime B) (b : B) (value bits : N) :
  g_expr_builder s = Some b →
  ∃ request,
    _sym_build_integer value bits s =
      (Ret (get (build request b).1),
       registered (build request b).1 (with_builder s (Some (build request b).2)))
    ∧ (request = createConstant value bits ∨ request = createConstantAP 64 value bits)
    ∧ (sizeof_uintptr_t = 8 ∨ value < 2 ^ (8 * sizeof_uintptr_t) →
       request = createConstant value bits)
    ∧ (sizeof_uintptr_t ≠ 8 → 2 ^ (8 * sizeof_uintptr_t) ≤ value →
       request = createConstantAP 64 value bits).
Proof.
  intros Hb. exists (integer_request value bits). split.
  { rewrite _sym_build_integer_eq. by apply build_and_register. }
  unfold integer_request. split; [|split].
  - repeat case_decide; auto.
  - intros Hfits. case_decide as Htarget; [done|].
    destruct Hfits as [Heq|Hlt]; [congruence|].
    rewrite decide_True; [done|]. by apply N.mod_small.
  - intros Htarget Hwide. rewrite decide_False by congruence.
    rewrite decide_False; [done|]. intros Hmod.
    assert (value `mod` 2 ^ (8 * sizeof_uintptr_t) < 2 ^ (8 * sizeof_uintptr_t))
      by (apply N.mod_upper_bound; by apply N.pow_nonzero). lia.
Qed.

(** X17. The 128-bit constant is requested with the value whose low 64 bits are
    [low] and whose high 64 bits are [high]. *)
Theorem build_integer128_halves (s : Runtime B) (b : B) (high low : N) :
  g_expr_builder s = Some b →
  high < 2 ^ 64 → low < 2 ^ 64 →
  ∃ value,
    value < 2 ^ 128
    ∧ value `mod` 2 ^ 64 = low
    ∧ value `div` 2 ^ 64 = high
    ∧ let r := build (createConstantAP 128 value 128) b in
      _sym_build_integer128 high low s =
      (Ret (get r.1), registered r.1 (with_builder s (Some r.2))).
Proof.
  intros Hb Hhigh Hlow. exists (low + high * 2 ^ 64). split; [|split; [|split]].
  - change (2 ^ 128) with (2 ^ 64 * 2 ^ 64). nia.
  - rewrite N.Div0.mod_add. by apply N.mod_small.
  - rewrite N.div_add by done. rewrite N.div_small by done. lia.
  - unfold _sym_build_integer128. by apply build_and_register.
Qed.

(** ** A failed lookup changes nothing *)

(** X18. Every entry point that starts by looking an identity up in the registry
    aborts with [std::out_of_range], the state untouched, when that identity
    is not registered: the unary and width-changing constructors, the
    extraction, the two path-constraint calls, the dependency printer, the
    queue insertion (for its value node), and the verification when the
    queue is not empty. *)
Theorem unregistered_identity_aborts (s : Runtime B) (expr : SymExpr) :
  allocatedExpressions s !! expr = None →
  expr ≠ nullptr →
  _sym_build_neg expr s = (Raise out_of_range, s)
  ∧ _sym_build_not expr s = (Raise out_of_range, s)
  ∧ (∀ bits, _sym_build_sext expr bits s = (Raise out_of_range, s))
  ∧ (∀ bits, _sym_build_zext expr bits s = (Raise out_of_range, s))
  ∧ (∀ bits, _sym_build_trunc expr bits s = (Raise out_of_range, s))
  ∧ _sym_build_bool_to_bit expr s = (Raise out_of_range, s)
  ∧ (∀ first_bit last_bit,
       _sym_extract_helper expr first_bit last_bit s = (Raise out_of_range, s))
  ∧ (∀ taken site_id,
       _sym_push_path_constraint expr taken site_id s = (Raise out_of_range, s))
  ∧ (∀ taken site_id,
       _sym_asan_push_path_constraint expr taken site_id s = (Raise out_of_range, s))
  ∧ _sym_asan_test_dependency expr s = (Raise out_of_range, s)
  ∧ (∀ addr concrete_addr,
       _sym_asan_insert_symbolic_addr_node expr addr concrete_addr s
       = (Raise out_of_range, s))
  ∧ (g_delay_constraint_queue s ≠ [] →
     _sym_asan_constraint_verify expr s = (Raise out_of_range, s)).
Proof.
  intros Hgone Hnode.
  repeat split; intros; unfold_entry_points; unfold _sym_asan_constraint_verify;
    unfold_M; repeat (rewrite decide_False by done); unfold at_; by rewrite Hgone.
Qed.

End Properties.


(** * The properties on the concrete environment *)

Lemma newest_first_keeps (check : list Z3Expr → check_outcome) :
  RehashKeeps (scenario check).
Proof. intros q. reflexivity. Qed.

(** C1 at work: with the address computed from [b1] resident, the one
    computed from [b1 + b2] is covered by nothing and is enqueued. *)
Lemma insert_symbolic_addr_node_spec_witness :
  ∃ s', _sym_asan_insert_symbolic_addr_node (env := always_sat) 3 3 4098 queued_1
          = (Ret tt, s')
        ∧ g_delay_constraint_queue s' ≡ₚ [(103, (3, 4098)); (101, (1, 4096))].
Proof.
  destruct (insert_symbolic_addr_node_spec (env := always_sat)
              (keeps_all := newest_first_keeps _) queued_1 3 3 4098 (mkExprRef 3))
    as (s' & Hrun & _ & _ & Henq).
  { vm_compute. reflexivity. }
  exists s'. split; [exact Hrun|].
  destruct Henq as [Hperm _].
  - compute_done.
  - apply Forall_forall. compute_done.
  - exact Hperm.
Defined.

(** C2 fails as stated: with the sets [{1}] and [{2}] resident, a candidate
    with the set [{1, 2}], a superset of the resident [{1}], is enqueued: the
    queue changes, and holds three entries. *)
Lemma superset_candidate_is_enqueued :
  resident_sets (env := always_sat) queued_1_2 = [{[2]}; {[1]}]
  ∧ ({[1]} : DependencySet) ⊆ deref (Environment := always_sat) 103
  ∧ g_delay_constraint_queue
      (_sym_asan_insert_symbolic_addr_node (env := always_sat) 3 3 4098 queued_1_2).2
    = (103, (3, 4098)) :: g_delay_constraint_queue queued_1_2.
Proof.
  split; [vm_compute; reflexivity|]. split; [compute_done|].
  vm_compute. reflexivity.
Qed.

(** The amended C2 on the same scenario. *)
Lemma insert_drops_subsets_only_witness :
  ∃ s', _sym_asan_insert_symbolic_addr_node (env := always_sat) 3 3 4098 queued_1_2
          = (Ret tt, s')
        ∧ g_delay_constraint_queue s'
          ≡ₚ [(103, (3, 4098)); (102, (2, 4097)); (101, (1, 4096))].
Proof.
  destruct (insert_drops_subsets_only (env := always_sat)
              (keeps_all := newest_first_keeps _) queued_1_2 3 3 4098 (mkExprRef 3))
    as [_ Henq].
  { vm_compute. reflexivity. }
  apply Henq.
  - compute_done.
  - apply Forall_forall. compute_done.
Defined.

(** C3 fails as stated: the address computed from [b1] is deferred and a
    collection then drops [b1]; both calls return. A branch on
    [(b1 | b5) | b9] is verified: the queue is not empty, its first scanned
    entry has the set [{1}], a subset of the branch's [{1, 5, 9}], and yet
    no entry is promoted: the call aborts, the entry is still in the queue,
    the exact set is still empty, and no path constraint was submitted. *)
Lemma matching_entry_is_not_promoted :
  (exec (env := always_sat) (asan_insert_symbolic_addr_node 1 1 4096) eight_nodes).1
  = Ret VUnit
  ∧ (exec (env := always_sat) (collect_garbage {[7]}) queued_1).1 = Ret VUnit
  ∧ g_delay_constraint_queue swept_to_branch = [(101, (1, 4096))]
  ∧ allocatedExpressions swept_to_branch !! 7 = Some (mkExprRef 7)
  ∧ deref (Environment := always_sat) 101
    ⊆ deref (Environment := always_sat)
        (getDependencies (Environment := always_sat) 7)
  ∧ allocatedExpressions swept_to_branch !! 1 = None
  ∧ let after := _sym_asan_constraint_verify (env := always_sat) 7 swept_to_branch in
    after.1 = Raise out_of_range
    ∧ g_delay_constraint_queue after.2 = [(101, (1, 4096))]
    ∧ g_exact_dependencies after.2 = ∅
    ∧ path_constraints <$> g_solver after.2 = Some [].
Proof.
  split; [vm_compute; reflexivity|]. split; [vm_compute; reflexivity|].
  split; [vm_compute; reflexivity|]. split; [vm_compute; reflexivity|].
  split; [compute_done|]. split; [vm_compute; reflexivity|].
  intros after.
  split; [vm_compute; reflexivity|]. split; [vm_compute; reflexivity|].
  split; vm_compute; reflexivity.
Qed.

(** The amended C3 at work: with [{5}] and [{1}] resident, in that scan
    order, a branch on [(b1 | b5) | b9] promotes the first, whose address
    expression is registered, and keeps the second. *)
Lemma constraint_verify_spec_witness :
  ∃ s', _sym_asan_constraint_verify (env := always_sat) 7 queued_1_5 = (Ret tt, s')
        ∧ g_delay_constraint_queue s' = [(101, (1, 4096))]
        ∧ g_exact_dependencies s' = {[5]}
        ∧ path_constraints <$> g_solver s' = Some [mkJcc (mkExprRef 10) true 0 false].
Proof.
  destruct (constraint_verify_spec (env := always_sat) queued_1_5 7) as [_ Hnode].
  destruct (Hnode (mkExprRef 7)) as [_ Hfirst]; [vm_compute; reflexivity|].
  edestruct (Hfirst [] 104 4 4100 [(101, (1, 4096))]) as (_ & Hpromoted & _).
  - vm_compute. reflexivity.
  - apply Forall_forall. compute_done.
  - compute_done.
  - change (map_Forall (λ k r, get r = k) (allocatedExpressions queued_1_5)).
    compute_done.
  - vm_compute. reflexivity.
  - edestruct Hpromoted as (s' & Hrun & Hq & Hx & Hsv).
    + vm_compute. reflexivity.
    + left. vm_compute. eauto.
    + vm_compute. discriminate.
    + exists s'. split; [exact Hrun|]. split; [exact Hq|]. split.
      * rewrite Hx. vm_compute. reflexivity.
      * rewrite Hsv. vm_compute. reflexivity.
Defined.

(** C4 fails as stated: after deferring the address computed from [b1] and
    then the one computed from [b1 + b2], the resident set [{1}] is a subset
    of the resident set [{1, 2}]. *)
Lemma resident_subset_of_resident :
  ¬ no_subsumption (env := always_sat) queued_1_12.
Proof.
  intros [Hpairs _].
  apply (Hpairs 1%nat 0%nat {[1]} {[1; 2]}); [done| | |compute_done];
    vm_compute; reflexivity.
Qed.

(** And a resident set may end up inside the exact set: verifying a branch
    on [b1 + b2] in that state promotes [{1, 2}] and leaves [{1}] behind. *)
Example resident_subset_of_exact :
  let s := run (env := always_sat) [asan_constraint_verify 3] queued_1_12 in
  resident_sets (env := always_sat) s = [{[1]}]
  ∧ g_exact_dependencies s = {[1; 2]}.
Proof. split; vm_compute; reflexivity. Qed.

(** The amended C4 on the same state. *)
Lemma queue_never_repeats_witness :
  no_repeat (env := always_sat) queued_1_12.
Proof.
  apply (queue_never_repeats (env := always_sat) (keeps_all := newest_first_keeps _)
           eight_nodes
           [asan_insert_symbolic_addr_node 1 1 4096;
            asan_insert_symbolic_addr_node 3 3 4098]
           (asan_constraint_verify 3)).
  vm_compute. reflexivity.
Defined.

(** C5 at work: offset 5, exact after the promotion above, stays exact
    through a further verification, a collection and an insertion. *)
Lemma exact_dependencies_only_grow_witness :
  5 ∈ g_exact_dependencies
        (run (env := always_sat)
           [asan_constraint_verify 7; collect_garbage ∅;
            asan_insert_symbolic_addr_node 2 2 4097]
           promoted_5).
Proof.
  apply (exact_dependencies_only_grow (env := always_sat)).
  compute_done.
Defined.

(** C6 fails as stated: before anything is exact, the constant node, which
    depends on no input byte, has its (empty) dependency set inside the
    (empty) exact set, and the query answers false. *)
Lemma empty_in_empty_is_not_exact :
  deref (Environment := always_sat) (getDependencies (Environment := always_sat) 8)
    ⊆ g_exact_dependencies eight_nodes
  ∧ _sym_asan_is_symexpr_exact (env := always_sat) 8 eight_nodes = (Ret false, eight_nodes).
Proof. split; [compute_done | vm_compute; reflexivity]. Qed.

(** The amended C6 once [{5}] is exact: the node [b5] is exact. *)
Lemma is_symexpr_exact_spec_witness :
  _sym_asan_is_symexpr_exact (env := always_sat) 4 promoted_5 = (Ret true, promoted_5).
Proof.
  destruct (is_symexpr_exact_spec (env := always_sat) promoted_5 4)
    as (answer & Hrun & Hanswer); [discriminate|].
  rewrite Hrun. f_equal. f_equal. apply Hanswer. split; compute_done.
Defined.

(** C7 fails as stated: when the check raises, the fault leaves
    [_sym_feasible] with the scope it pushed still open. *)
Lemma fault_leaves_scope_open :
  run (env := faulty_solver) program initial_runtime = eight_nodes
  ∧ scopes <$> g_solver eight_nodes = Some []
  ∧ (_sym_feasible (env := faulty_solver) 1 eight_nodes).1 = Raise solver_fault
  ∧ scopes <$> g_solver (_sym_feasible (env := faulty_solver) 1 eight_nodes).2
    = Some [[mkZ3Expr 1]].
Proof.
  split; [vm_compute; reflexivity|]. split; [vm_compute; reflexivity|].
  split; vm_compute; reflexivity.
Qed.

(** The amended C7: three queries in a row change nothing. *)
Lemma feasible_scoped_witness :
  run (env := always_sat) [feasible 1; feasible 3; feasible 7] eight_nodes = eight_nodes.
Proof.
  destruct (feasible_scoped (env := always_sat) eight_nodes
              (mkSolver [0; 65; 66; 0; 0; 67; 0; 0; 0; 68] [] [] [] []) [1; 3; 7])
    as [Hreturns _].
  - vm_compute. reflexivity.
  - apply Forall_forall. compute_done.
  - apply Hreturns. intros e _. by exists sat.
Defined.

(** C8 at work: eight entries against a threshold of four; with [b1] and
    [b1 + b2] reachable, those two stay and [b2] goes. *)
Lemma collect_garbage_spec_witness :
  ∃ s', _sym_collect_garbage (env := always_sat) {[1; 3]} eight_nodes = (Ret tt, s')
        ∧ allocatedExpressions s' !! 1 = Some (mkExprRef 1)
        ∧ allocatedExpressions s' !! 3 = Some (mkExprRef 3)
        ∧ allocatedExpressions s' !! 2 = None.
Proof.
  destruct (collect_garbage_spec (env := always_sat) eight_nodes {[1; 3]})
    as (s' & Hrun & _ & Hswept).
  exists s'. split; [exact Hrun|].
  destruct Hswept as [_ Hlookup]; [vm_compute; discriminate|].
  rewrite !Hlookup. repeat split; vm_compute; reflexivity.
Defined.

(** C9 fails as stated: a second registration replaces the first, and it is
    the second handler that receives the values. *)
Lemma second_registration_replaces_first :
  saved <$> g_solver
    (run (env := always_sat)
       [set_test_case_handler 7001; set_test_case_handler 7002; save_values "id"]
       eight_nodes)
  = Some [handled 7002 [0; 65; 66; 0; 0; 67; 0; 0; 0; 68]].
Proof. vm_compute. reflexivity. Qed.

(** The amended C9 on that state: two registrations with other calls
    between and after them; the handler of the second is in force at the
    end, and receives the values. *)
Lemma test_case_handler_last_wins_witness :
  let calls :=
    [set_test_case_handler 7001; notify_basic_block 3;
     set_test_case_handler 7002; build_true; collect_garbage {[1]}] in
  let s' := run (env := always_sat) calls eight_nodes in
  g_test_case_handler s' = 7002
  ∧ saved <$> g_solver (saveValues (env := always_sat) "id" s').2
    = Some [handled 7002 [0; 65; 66; 0; 0; 67; 0; 0; 0; 68]].
Proof.
  intros calls s'.
  destruct (test_case_handler_last_wins (env := always_sat) calls eight_nodes "id")
    as (_ & _ & _ & Hlast & Hhandler & Hsave).
  fold s' in Hhandler, Hsave.
  assert (last_registration calls (g_test_case_handler eight_nodes) = 7002) as Heq.
  { apply (Hlast [set_test_case_handler 7001; notify_basic_block 3] 7002
             [build_true; collect_garbage {[1]}]); [reflexivity|].
    by repeat constructor. }
  rewrite Heq in Hhandler, Hsave.
  split; [exact Hhandler|].
  erewrite Hsave; [|vm_compute; reflexivity]. vm_compute. reflexivity.
Defined.

(** C10 at work: in the state with eight nodes null is not registered, and
    adding null to [b1] aborts. *)
Lemma null_operand_guards_witness :
  _sym_build_sext (env := always_sat) nullptr 8 eight_nodes = (Ret nullptr, eight_nodes)
  ∧ DEF_BINARY_EXPR_BUILDER (env := always_sat) _sym_build_add 1 nullptr eight_nodes
    = (Raise out_of_range, eight_nodes).
Proof.
  destruct (null_operand_guards (env := always_sat) eight_nodes)
    as (Hsext & _ & _ & _ & _ & Hlookup).
  split; [apply Hsext|].
  destruct Hlookup as (_ & Hright & _); [vm_compute; reflexivity|].
  apply Hright.
Defined.

(** ** The further properties on the concrete environment *)

Lemma get_input_byte_records_value_witness :
  ∃ s', _sym_get_input_byte (env := always_sat) 3 90 eight_nodes = (Ret 9, s')
        ∧ inputs_ <$> g_solver s' = Some [0; 65; 66; 90; 0; 67; 0; 0; 0; 68].
Proof.
  destruct (get_input_byte_records_value (env := always_sat) eight_nodes
              (mkSolver [0; 65; 66; 0; 0; 67; 0; 0; 0; 68] [] [] [] []) 9 3 90)
    as (s' & Hrun & _ & Hsolver & _); [vm_compute; reflexivity..|].
  exists s'. split; [exact Hrun|]. rewrite Hsolver. vm_compute. reflexivity.
Defined.

(** X2 at work, on a buffer of three bytes: a byte pushed at offset 5 lands
    behind two zeros; a byte pushed at the largest offset empties the
    buffer and is stored nowhere. *)
Lemma pushInputByte_spec_witness :
  let sv := mkSolver [65; 66; 67] [] [] [] [] in
  (∃ sv', pushInputByte (env := always_sat) 5 90 sv = (Ret tt, sv')
          ∧ inputs_ sv' = [65; 66; 67; 0; 0; 90])
  ∧ pushInputByte (env := always_sat) (2 ^ 64 - 1) 90 sv
    = (Raise out_of_bounds, mkSolver [] [] [] [] []).
Proof.
  intros sv.
  destruct (pushInputByte_spec (env := always_sat) 5 90 sv) as [Hfits _].
  destruct (pushInputByte_spec (env := always_sat) (2 ^ 64 - 1) 90 sv) as [_ Hwraps].
  split.
  - destruct Hfits as (sv' & Hrun & _); [vm_compute; reflexivity|].
    exists sv'. split; [exact Hrun|].
    replace sv' with (pushInputByte (env := always_sat) 5 90 sv).2
      by (by rewrite Hrun).
    vm_compute. reflexivity.
  - rewrite Hwraps; [reflexivity|vm_compute; reflexivity|vm_compute; discriminate].
Defined.

Lemma initialized_runtime_carries_on_witness :
  let s := run (env := always_sat)
             [asan_constraint_verify 3; get_input_byte (2 ^ 64 - 1) 1;
              save_values "id"; initialize; feasible 1; collect_garbage ∅]
             promoted_5 in
  g_initialized s = true ∧ is_Some (g_expr_builder s) ∧ is_Some (g_solver s).
Proof.
  destruct (initialized_runtime_carries_on (env := always_sat)
              [asan_constraint_verify 3; get_input_byte (2 ^ 64 - 1) 1;
               save_values "id"; initialize; feasible 1; collect_garbage ∅]
              promoted_5)
    as (Hflag & Hbuilder & Hsolver); [vm_compute; reflexivity|].
  split; [exact Hflag|]. split.
  - apply Hbuilder. vm_compute. eauto.
  - apply Hsolver. vm_compute. eauto.
Defined.

Lemma returned_identity_is_registered_witness :
  is_Some (allocatedExpressions
             (exec (env := always_sat) (build_binary _sym_build_xor 1 2) eight_nodes).2 !! 9).
Proof.
  apply (returned_identity_is_registered (env := always_sat)).
  - vm_compute. reflexivity.
  - discriminate.
Defined.

Lemma registry_kept_between_collections_witness :
  allocatedExpressions
    (run (env := always_sat)
       [build_neg 2; asan_insert_symbolic_addr_node 2 2 4097; asan_constraint_verify 2;
        build_integer 5 8]
       eight_nodes) !! 2 = Some (mkExprRef 2).
Proof.
  apply (registry_kept_between_collections (env := always_sat)).
  - intros c Hc reachable.
    repeat (apply elem_of_cons in Hc as [->|Hc]; [discriminate|]).
    by apply elem_of_nil in Hc.
  - vm_compute. reflexivity.
Defined.

Lemma reachable_null_unregistered_witness :
  allocatedExpressions
    (run (env := never_null)
       [initialize; get_input_byte 1 65; build_true; build_binary _sym_build_and 1 2;
        collect_garbage {[2]}]
       initial_runtime) !! nullptr = None.
Proof.
  apply (reachable_null_unregistered (env := never_null)).
  intros c b. simpl. unfold nullptr. lia.
Defined.

Lemma exactness_lasts_witness :
  let s' := run (env := always_sat)
              [asan_insert_symbolic_addr_node 3 3 4098; asan_constraint_verify 3;
               collect_garbage {[4; 7]}]
              promoted_5 in
  _sym_asan_is_symexpr_exact (env := always_sat) 4 s' = (Ret true, s')
  ∧ _sym_asan_insert_symbolic_addr_node (env := always_sat) 4 4 4100 s' = (Ret tt, s').
Proof.
  destruct (exactness_lasts (env := always_sat) promoted_5 4
              [asan_insert_symbolic_addr_node 3 3 4098; asan_constraint_verify 3;
               collect_garbage {[4; 7]}])
    as [Hexact Hinsert]; [vm_compute; reflexivity|].
  split; [exact Hexact|]. apply Hinsert.
  - vm_compute. eauto.
  - match goal with
    | |- registry_wf ?st =>
        change (map_Forall (λ k r, get r = k) (allocatedExpressions st))
    end.
    compute_done.
Defined.


Lemma expr_to_string_is_bounded_witness :
  ∃ text, _sym_expr_to_string (env := verbose) 1 eight_nodes = (Ret text, eight_nodes)
          ∧ String.length text = 4095%nat
          ∧ String.length (toString (Environment := verbose) 1) = 4200%nat.
Proof.
  destruct (expr_to_string_is_bounded (env := verbose) eight_nodes 1)
    as (text & Hrun & Hlen & _); [discriminate|].
  exists text. split; [exact Hrun|]. split; [|vm_compute; reflexivity].
  rewrite Hlen. vm_compute. reflexivity.
Defined.


Lemma build_integer_keeps_the_value_witness :
  ∃ s', _sym_build_integer (env := narrow_target) (2 ^ 40) 64 eight_nodes = (Ret 9, s')
        ∧ integer_request (env := narrow_target) (2 ^ 40) 64
          = createConstantAP 64 (2 ^ 40) 64.
Proof.
  destruct (build_integer_keeps_the_value (env := narrow_target) eight_nodes 9 (2 ^ 40) 64)
    as (request & Hrun & _ & _ & Hwide); [vm_compute; reflexivity|].
  eexists. split; [exact Hrun|]. vm_compute. reflexivity.
Defined.

Lemma build_integer128_halves_witness :
  ∃ value, value `mod` 2 ^ 64 = 5 ∧ value `div` 2 ^ 64 = 3
           ∧ (_sym_build_integer128 (env := always_sat) 3 5 eight_nodes).1 = Ret 9.
Proof.
  destruct (build_integer128_halves (env := always_sat) eight_nodes 9 3 5)
    as (value & _ & Hlow & Hhigh & Hrun); [vm_compute; reflexivity..|].
  exists value. split; [exact Hlow|]. split; [exact Hhigh|]. by rewrite Hrun.
Defined.

Lemma unregistered_identity_aborts_witness :
  _sym_build_neg (env := always_sat) 2 collected = (Raise out_of_range, collected)
  ∧ _sym_asan_constraint_verify (env := always_sat) 2 collected
    = (Raise out_of_range, collected).
Proof.
  destruct (unregistered_identity_aborts (env := always_sat) collected 2)
    as (Hneg & Hrest); [vm_compute; reflexivity | discriminate |].
  split; [exact Hneg|].
  destruct Hrest as (_ & _ & _ & _ & _ & _ & _ & _ & _ & _ & Hverify).
  apply Hverify. vm_compute. discriminate.
Defined.
